(** * Filter-and-bound views over console and network logs

    A shallow embedding of [src/tools/utils.ts] (the window trimmer
    [stringArrayApplyLimits] and the completion barrier
    [waitForCompletion]) and of the console and network tools that filter
    the two logs, followed by the properties of the specification that
    were checked against the code. *)

From Stdlib Require Import ZArith Lia Bool String Ascii DecimalString.
From Stdlib Require Import Floats.SpecFloat.
From stdpp Require Import base list gmap.

Local Open Scope string_scope.
Local Open Scope list_scope.
Local Open Scope Z_scope.

(** ** JavaScript values used by the code *)

Module JS.

(** [Array.prototype.slice]: a negative index counts from the end and
    both ends are clamped to the array. *)
Definition relativeIndex (len i : Z) : Z :=
  if i <? 0 then Z.max (len + i) 0 else Z.min i len.

Definition slice {A : Type} (l : list A) (start : Z) (end_ : option Z) : list A :=
  let len := Z.of_nat (length l) in
  let k := relativeIndex len start in
  let final := match end_ with Some e => relativeIndex len e | None => len end in
  take (Z.to_nat (final - k)) (drop (Z.to_nat k) l).

(** [str.length] *)
Definition strLength (s : string) : Z := Z.of_nat (String.length s).

(** Template-literal rendering of an integer. *)
Definition numberToString (n : Z) : string := NilZero.string_of_int (Z.to_int n).

(** An optional count is taken when it is truthy: present and not [0]. *)
Definition truthy (c : option Z) : option Z :=
  match c with
  | Some n => if n =? 0 then None else Some n
  | None => None
  end.

(** *** IEEE-754 binary64 arithmetic

    JavaScript numbers are doubles.  Lengths, counts and budgets are
    integers below [2^53], which doubles hold exactly, so they are kept
    in [Z]; the one place where the code leaves the integers, the
    quotient in the proportional split, is computed in binary64 with the
    executable specification of the Standard Library. *)
Definition prec : Z := 53.
Definition emax : Z := 1024.

Definition ofZ (n : Z) : spec_float := binary_normalize prec emax n 0 false.
Definition fdiv : spec_float -> spec_float -> spec_float := SFdiv prec emax.
Definition fmul : spec_float -> spec_float -> spec_float := SFmul prec emax.

(** [Math.floor] of a double, as an integer; [None] when the double is
    not a finite number ([NaN] or an infinity). *)
Definition floor (x : spec_float) : option Z :=
  match x with
  | S754_zero _ => Some 0
  | S754_finite s m e => Some (Z.shiftl (if s then Z.neg m else Z.pos m) e)
  | S754_infinity _ | S754_nan => None
  end.

(** A double without a minus sign. *)
Definition nonnegative (x : spec_float) : Prop :=
  match x with
  | S754_nan => True
  | S754_zero s | S754_infinity s | S754_finite s _ _ => s = false
  end.

(** [length > maxLength]; a comparison with [NaN] ([None]) is false. *)
Definition gt (length : Z) (maxLength : option Z) : bool :=
  match maxLength with
  | Some m => length >? m
  | None => false
  end.

End JS.

(** ** [src/tools/utils.ts]: the window trimmer *)

Module Utils.

(** The counts are integers: the tools ask for positive numbers and the
    specification for positive integers. *)
Record StringArrayApplyLimitsOptions := {
  maxTotalLength : Z;
  countFirst : option Z;
  countLast : option Z;
}.

Definition stringArrayTotalLength (strings : list string) : Z :=
  fold_left (fun length str => length + JS.strLength str) strings 0.

(** The loop of the [preferEnd] branch: [n] is [i + 1], so that [n = 0]
    is the exit [i < 0]; the result is the final [index]. *)
Fixpoint trimLoopEnd (strings : list string) (maxLength : option Z)
    (n : nat) (length : Z) (index : nat) : nat :=
  match n with
  | O => index
  | S i =>
      let length := length + JS.strLength (nth i strings "") in
      if JS.gt length maxLength then index
      else trimLoopEnd strings maxLength i length i
  end.

(** The loop of the other branch, over the lines [strings[i..]] still to
    visit. *)
Fixpoint trimLoopStart (rest : list string) (maxLength : option Z)
    (i : nat) (length : Z) (index : nat) : nat :=
  match rest with
  | [] => index
  | str :: rest =>
      let length := length + JS.strLength str in
      if JS.gt length maxLength then index
      else trimLoopStart rest maxLength (S i) length (S i)
  end.

Definition stringArrayTrimToLength (strings : list string) (maxLength : option Z)
    (preferEnd : bool) : list string :=
  if preferEnd then
    let index := trimLoopEnd strings maxLength (length strings) 0 0 in
    JS.slice strings (Z.of_nat index) None
  else
    let index := trimLoopStart strings maxLength 0 0 0 in
    JS.slice strings 0 (Some (Z.of_nat index)).

Definition skippedMarker (n : Z) : string :=
  ("[" ++ JS.numberToString n ++ " messages skipped]")%string.
Definition trimmedMarker (n : Z) : string :=
  ("[" ++ JS.numberToString n ++ " messages trimmed]")%string.

(** [Math.floor(maxTotalLength * (lengthFirst / totalLength))] *)
Definition splitBudget (maxTotalLength lengthFirst totalLength : Z) : option Z :=
  JS.floor (JS.fmul (JS.ofZ maxTotalLength)
                    (JS.fdiv (JS.ofZ lengthFirst) (JS.ofZ totalLength))).

Definition stringArrayApplyLimits (strings : list string)
    (options : StringArrayApplyLimitsOptions) : list string :=
  let maxTotalLength := maxTotalLength options in
  match JS.truthy (countFirst options), JS.truthy (countLast options) with
  | Some countFirst, Some countLast =>
      let firstN := JS.slice strings 0 (Some countFirst) in
      let lastN := JS.slice strings (- countLast) None in
      let lengthFirst := stringArrayTotalLength firstN in
      let lengthLast := stringArrayTotalLength lastN in
      let totalLength := lengthFirst + lengthLast in
      if totalLength >? maxTotalLength then
        let maxLengthFirst := splitBudget maxTotalLength lengthFirst totalLength in
        let maxLengthLast := (fun m => maxTotalLength - m) <$> maxLengthFirst in
        let trimmedFirst := stringArrayTrimToLength firstN maxLengthFirst false in
        let trimmedLast := stringArrayTrimToLength lastN maxLengthLast true in
        let skippedFirst := Z.of_nat (length firstN) - Z.of_nat (length trimmedFirst) in
        let skippedLast := Z.of_nat (length lastN) - Z.of_nat (length trimmedLast) in
        let totalSkipped :=
          Z.of_nat (length strings) - countFirst - countLast + skippedFirst + skippedLast in
        trimmedFirst ++ [skippedMarker totalSkipped] ++ trimmedLast
      else
        firstN ++ lastN
  | Some countFirst, None =>
      let result := JS.slice strings 0 (Some countFirst) in
      let trimmed := stringArrayTrimToLength result (Some maxTotalLength) false in
      let skipped := Z.of_nat (length result) - Z.of_nat (length trimmed) in
      if skipped >? 0 then trimmed ++ [trimmedMarker skipped] else trimmed
  | None, Some countLast =>
      let result := JS.slice strings (- countLast) None in
      let trimmed := stringArrayTrimToLength result (Some maxTotalLength) true in
      let skipped := Z.of_nat (length result) - Z.of_nat (length trimmed) in
      if skipped >? 0 then trimmedMarker skipped :: trimmed else trimmed
  | None, None =>
      let trimmed := stringArrayTrimToLength strings (Some maxTotalLength) true in
      let skipped := Z.of_nat (length strings) - Z.of_nat (length trimmed) in
      if skipped >? 0 then trimmedMarker skipped :: trimmed else trimmed
  end.

(** *** The specification's wording, kept apart from the code

    Marker accuracy: the count of a marker line is the number of lines
    of [strings] that are not returned. *)
Definition isMarker (line : string) (n : Z) : Prop :=
  line = skippedMarker n \/ line = trimmedMarker n.

Definition markerCountsExcluded (strings : list string)
    (options : StringArrayApplyLimitsOptions) : Prop :=
  forall before line after n,
    stringArrayApplyLimits strings options = before ++ line :: after ->
    isMarker line n ->
    n = Z.of_nat (length strings) - Z.of_nat (length before + length after).

(** The proportional split as an exact integer floor. *)
Definition specSplitBudget (budget lenFirst lenLast : Z) : Z :=
  budget * lenFirst / (lenFirst + lenLast).

End Utils.

(** ** Exceptions

    [new RegExp(pattern, 'iu')] throws a [SyntaxError] on a malformed
    pattern; nothing in the tools catches it, so it ends the call.  The
    computations that can throw live in an error monad. *)

Inductive Error :=
  | SyntaxError (pattern : string).

Inductive Result (A : Type) :=
  | Ok (a : A)
  | Throw (e : Error).
Arguments Ok {A} a.
Arguments Throw {A} e.

Definition bind {A B : Type} (r : Result A) (k : A -> Result B) : Result B :=
  match r with
  | Ok a => k a
  | Throw e => Throw e
  end.

Notation "'let!' x ':=' r 'in' k" := (bind r (fun x => k))
  (at level 10, x name, r at level 100, k at level 200).

(** [Array.prototype.some] and [Array.prototype.filter] with a callback
    that can throw: the callback runs on the entries in order, [some]
    stops at the first [true], and an exception ends the iteration. *)
Fixpoint some {A : Type} (callback : A -> Result bool) (array : list A) : Result bool :=
  match array with
  | [] => Ok false
  | x :: array => let! b := callback x in if b then Ok true else some callback array
  end.

Fixpoint filterArray {A : Type} (callback : A -> Result bool) (array : list A)
    : Result (list A) :=
  match array with
  | [] => Ok []
  | x :: array =>
      let! b := callback x in
      let! rest := filterArray callback array in
      Ok (if b then x :: rest else rest)
  end.

(** The regular-expression engine of the host: compiling a pattern with
    the flags [iu] gives a matcher ([regex.test]) or fails.  The tools are
    parametric in it. *)
Definition RegExpEngine : Type := string -> option (string -> bool).

Definition newRegExp (engine : RegExpEngine) (pattern : string)
    : Result (string -> bool) :=
  match engine pattern with
  | Some regex => Ok regex
  | None => Throw (SyntaxError pattern)
  end.

(** A truthy string is a non-empty one. *)
Definition truthyString (s : option string) : option string :=
  match s with
  | Some EmptyString | None => None
  | Some s => Some s
  end.

(** ** The console tool *)

Module Console.

Definition MAX_TOTAL_TEXT_LENGTH : Z := 2000.

Inductive MessageType := error | warning | info | verbose.

Definition MessageType_eqb (a b : MessageType) : bool :=
  match a, b with
  | error, error | warning, warning | info, info | verbose, verbose => true
  | _, _ => false
  end.

(** Modelled from the spec: the declaration of [ConsoleMessage] is in
    [tab.ts], which is not part of the sources at hand; a console record
    has a source-level tag, a message body and a rendered form. *)
Record ConsoleMessage := {
  type : string;
  text : string;
  toString : string;
}.

(** [ConsoleFilterSchema] *)
Record ConsoleFilter := {
  types : option (list MessageType);
  pattern : option string;
}.

Definition getConsoleMessageType (message : ConsoleMessage) : MessageType :=
  if String.eqb (type message) "error" then error
  else if String.eqb (type message) "warning" then warning
  else if String.eqb (type message) "log" then info
  else if String.eqb (type message) "info" then info
  else verbose.

Section Engine.
Variable engine : RegExpEngine.

(** The callback given to [filters.some]. *)
Definition matchesFilter (message : ConsoleMessage) (filter : ConsoleFilter)
    : Result bool :=
  let typesReject :=
    match types filter with
    | Some ((_ :: _) as types) =>
        negb (existsb (MessageType_eqb (getConsoleMessageType message)) types)
    | _ => false
    end in
  if typesReject then Ok false
  else
    match truthyString (pattern filter) with
    | Some pattern =>
        let! regex := newRegExp engine pattern in
        if negb (regex (text message)) then Ok false else Ok true
    | None => Ok true
    end.

Definition createConsoleFilter (filters : list ConsoleFilter) (isInclude : bool)
    (message : ConsoleMessage) : Result bool :=
  match filters with
  | [] => Ok isInclude
  | _ =>
      let! matchesAnyFilter := some (matchesFilter message) filters in
      Ok (if isInclude then matchesAnyFilter else negb matchesAnyFilter)
  end.

(** The patterns that the clauses of a filter list carry. *)
Definition patterns (filters : option (list ConsoleFilter)) : list string :=
  match filters with
  | Some filters => omap (fun filter => truthyString (pattern filter)) filters
  | None => []
  end.

Record Params := {
  include : option (list ConsoleFilter);
  exclude : option (list ConsoleFilter);
  first : option Z;
  last : option Z;
}.

(** The two filtering steps of [handle]. *)
Definition filterMessages (consoleMessages : list ConsoleMessage) (params : Params)
    : Result (list ConsoleMessage) :=
  let! messages :=
    match include params with
    | Some include => filterArray (createConsoleFilter include true) consoleMessages
    | None => Ok consoleMessages
    end in
  match exclude params with
  | Some exclude => filterArray (createConsoleFilter exclude false) messages
  | None => Ok messages
  end.

(** [handle]: the lines added to the response. *)
Definition handle (consoleMessages : list ConsoleMessage) (params : Params)
    : Result (list string) :=
  let! messages := filterMessages consoleMessages params in
  let messageStrings := map toString messages in
  Ok (Utils.stringArrayApplyLimits messageStrings
        {| Utils.maxTotalLength := MAX_TOTAL_TEXT_LENGTH;
           Utils.countFirst := first params;
           Utils.countLast := last params |}).
End Engine.

End Console.

(** ** The network tool *)

Module Network.

Definition MAX_TOTAL_TEXT_LENGTH : Z := 2000.

Inductive RequestType := extension | sameHost | thirdParty.

Definition RequestType_eqb (a b : RequestType) : bool :=
  match a, b with
  | extension, extension | sameHost, sameHost | thirdParty, thirdParty => true
  | _, _ => false
  end.

(** What the tool reads of a [playwright.Request] and of a
    [playwright.Response]. *)
Record Request := {
  url : string;
  method : string;
}.

Record Response := {
  status : Z;
  statusText : string;
}.

(** [NetworkFilterSchema] *)
Record NetworkFilter := {
  statuses : option (list (Z * Z));
  types : option (list RequestType);
  pattern : option string;
}.

Section Host.
Variable engine : RegExpEngine.
(** [new URL(url).hostname], [None] when the URL does not parse. *)
Variable hostname : string -> option string.
(** [str.toUpperCase()] *)
Variable toUpperCase : string -> string.

Definition getNetworkRequestType (request : Request) (currentPageUrl : string)
    : RequestType :=
  let url := url request in
  if String.prefix "chrome-extension://" url || String.prefix "moz-extension://" url
  then extension
  else
    match hostname url with
    | Some requestDomain =>
        match hostname currentPageUrl with
        | Some currentDomain =>
            if String.eqb requestDomain currentDomain then sameHost else thirdParty
        | None => thirdParty
        end
    | None => thirdParty
    end.

(** The callback given to [filters.some]. *)
Definition matchesFilter (currentPageUrl : string)
    (entry : Request * option Response) (filter : NetworkFilter) : Result bool :=
  let '(request, response) := entry in
  let statusesReject :=
    match statuses filter, response with
    | Some ((_ :: _) as statuses), Some response =>
        let status := status response in
        negb (existsb (fun '(min, max) => (status >=? min) && (status <=? max)) statuses)
    | _, _ => false
    end in
  if statusesReject then Ok false
  else
    let typesReject :=
      match types filter with
      | Some ((_ :: _) as types) =>
          negb (existsb (RequestType_eqb (getNetworkRequestType request currentPageUrl))
                  types)
      | _ => false
      end in
    if typesReject then Ok false
    else
      match truthyString (pattern filter) with
      | Some pattern =>
          let! regex := newRegExp engine pattern in
          if negb (regex (url request)) then Ok false else Ok true
      | None => Ok true
      end.

Definition createNetworkFilter (filters : list NetworkFilter) (isInclude : bool)
    (currentPageUrl : string) (entry : Request * option Response) : Result bool :=
  match filters with
  | [] => Ok isInclude
  | _ =>
      let! matchesAnyFilter := some (matchesFilter currentPageUrl entry) filters in
      Ok (if isInclude then matchesAnyFilter else negb matchesAnyFilter)
  end.

Definition renderRequest (request : Request) (response : option Response) : string :=
  let line := ("[" ++ toUpperCase (method request) ++ "] " ++ url request)%string in
  match response with
  | Some response =>
      (line ++ " " ++ "=> [" ++ JS.numberToString (status response) ++ "] "
         ++ statusText response)%string
  | None => line
  end.

(** The patterns that the clauses of a filter list carry. *)
Definition patterns (filters : option (list NetworkFilter)) : list string :=
  match filters with
  | Some filters => omap (fun filter => truthyString (pattern filter)) filters
  | None => []
  end.

Record Params := {
  include : option (list NetworkFilter);
  exclude : option (list NetworkFilter);
  first : option Z;
  last : option Z;
}.

(** The two filtering steps of [handle]. *)
Definition filterEntries (requests : list (Request * option Response))
    (currentPageUrl : string) (params : Params)
    : Result (list (Request * option Response)) :=
  let! requestEntries :=
    match include params with
    | Some include =>
        filterArray (createNetworkFilter include true currentPageUrl) requests
    | None => Ok requests
    end in
  match exclude params with
  | Some exclude =>
      filterArray (createNetworkFilter exclude false currentPageUrl) requestEntries
  | None => Ok requestEntries
  end.

(** [handle]: the lines added to the response. *)
Definition handle (requests : list (Request * option Response))
    (currentPageUrl : string) (params : Params) : Result (list string) :=
  let! requestEntries := filterEntries requests currentPageUrl params in
  let requestStrings := map (fun '(req, res) => renderRequest req res) requestEntries in
  let resultStrings :=
    Utils.stringArrayApplyLimits requestStrings
      {| Utils.maxTotalLength := MAX_TOTAL_TEXT_LENGTH;
         Utils.countFirst := first params;
         Utils.countLast := last params |} in
  Ok match resultStrings with
     | [] => ["No network requests found matching the specified filters"]
     | _ => resultStrings
     end.
End Host.

End Network.

(** ** [src/tools/utils.ts]: the completion barrier

    [waitForCompletion] runs on the single-threaded event loop: its body
    is suspended at each [await] and the host calls the listeners, the
    timer and the continuations one at a time.  The embedding is the
    state of one call and a step function that runs the code the host
    enters on each event. *)

Module Barrier.

(** What [dispose] gives back: the three listeners registered on the
    page and the pending timer. *)
Inductive Resource :=
  | requestListener
  | requestFinishedListener
  | frameNavigateListener
  | timeout.

#[global] Instance Resource_eq_dec : EqDecision Resource.
Proof. solve_decision. Defined.

#[global] Instance Resource_countable : Countable Resource.
Proof.
  refine (inj_countable'
    (fun r => match r with
              | requestListener => 0%nat
              | requestFinishedListener => 1%nat
              | frameNavigateListener => 2%nat
              | timeout => 3%nat
              end)
    (fun n => match n with
              | 0%nat => requestListener
              | 1%nat => requestFinishedListener
              | 2%nat => frameNavigateListener
              | _ => timeout
              end) _).
  intros []; reflexivity.
Defined.

Definition allResources : list Resource :=
  [requestListener; requestFinishedListener; frameNavigateListener; timeout].

Section Call.
(** The result type of the action and the type of what it throws. *)
Context {R E : Type}.

(** Where the body of the function is. *)
Inductive Position :=
  | awaitCallback                (* [await callback()] *)
  | awaitWaitBarrier (result : R) (* [await waitBarrier] *)
  | awaitWaitForTimeout (result : R) (* [await tab.waitForTimeout(1000)] *)
  | returned (result : R)
  | thrown (error : E).

Record State := {
  requests : gset nat;
  frameNavigated : bool;
  (** [waitBarrier] is resolved, that is, [waitCallback] was called. *)
  waitBarrier : bool;
  (** [tab.waitForLoadState('load').then(waitCallback)] is pending. *)
  loadStatePending : bool;
  (** Listeners registered on the page, and the timer while it is
      pending. *)
  active : gset Resource;
  (** The resources that stopped being active, latest first: a listener
      by [page.off], the timer by [clearTimeout] or by firing. *)
  released : list Resource;
  position : Position;
}.

(** What the host can do next. *)
Inductive Event :=
  | emitRequest (request : nat)
  | emitRequestFinished (request : nat)
  | emitFrameNavigated (hasParentFrame : bool)
  | timeoutElapses
  | loadStateReached
  | callbackResolves (result : R)
  | callbackRejects (error : E)
  | waitForTimeoutResolves
  | waitForTimeoutRejects (error : E).

(** [page.off(event, listener)] and [clearTimeout(timeout)]: take the
    resource away when it is there, and do nothing otherwise. *)
Definition release (r : Resource) (s : State) : State :=
  if decide (r ∈ active s) then
    {| requests := requests s; frameNavigated := frameNavigated s;
       waitBarrier := waitBarrier s; loadStatePending := loadStatePending s;
       active := active s ∖ {[r]}; released := r :: released s;
       position := position s |}
  else s.

Definition dispose (s : State) : State :=
  release timeout
    (release frameNavigateListener
       (release requestFinishedListener
          (release requestListener s))).

(** [waitCallback()] resolves [waitBarrier]; the body, when it waits
    for the barrier, goes on to [tab.waitForTimeout(1000)]. *)
Definition waitCallback (s : State) : State :=
  {| requests := requests s; frameNavigated := frameNavigated s;
     waitBarrier := true; loadStatePending := loadStatePending s;
     active := active s; released := released s;
     position := match position s with
                 | awaitWaitBarrier result => awaitWaitForTimeout result
                 | p => p
                 end |}.

Definition setRequests (requests' : gset nat) (s : State) : State :=
  {| requests := requests'; frameNavigated := frameNavigated s;
     waitBarrier := waitBarrier s; loadStatePending := loadStatePending s;
     active := active s; released := released s; position := position s |}.

Definition setPosition (p : Position) (s : State) : State :=
  {| requests := requests s; frameNavigated := frameNavigated s;
     waitBarrier := waitBarrier s; loadStatePending := loadStatePending s;
     active := active s; released := released s; position := p |}.

Definition onRequest (request : nat) (s : State) : State :=
  setRequests ({[request]} ∪ requests s) s.

Definition onRequestFinished (request : nat) (s : State) : State :=
  let s := setRequests (requests s ∖ {[request]}) s in
  if decide (requests s = ∅) then waitCallback s else s.

Definition onFrameNavigate (hasParentFrame : bool) (s : State) : State :=
  if hasParentFrame then s
  else
    let s := {| requests := requests s; frameNavigated := true;
                waitBarrier := waitBarrier s; loadStatePending := loadStatePending s;
                active := active s; released := released s;
                position := position s |} in
    let s := dispose s in
    let s := release timeout s in
    {| requests := requests s; frameNavigated := frameNavigated s;
       waitBarrier := waitBarrier s; loadStatePending := true;
       active := active s; released := released s; position := position s |}.

Definition onTimeout (s : State) : State := waitCallback (dispose s).

(** The state after the listeners and the timer are set up and
    [callback()] is called. *)
Definition start : State :=
  {| requests := ∅; frameNavigated := false; waitBarrier := false;
     loadStatePending := false;
     active := list_to_set allResources; released := [];
     position := awaitCallback |}.

(** The body after [await callback()]. *)
Definition afterCallback (result : R) (s : State) : State :=
  let s := if bool_decide (requests s = ∅) && negb (frameNavigated s)
           then waitCallback s else s in
  if waitBarrier s then setPosition (awaitWaitForTimeout result) s
  else setPosition (awaitWaitBarrier result) s.

Definition step (s : State) (ev : Event) : State :=
  match ev with
  | emitRequest request =>
      if decide (requestListener ∈ active s) then onRequest request s else s
  | emitRequestFinished request =>
      if decide (requestFinishedListener ∈ active s)
      then onRequestFinished request s else s
  | emitFrameNavigated hasParentFrame =>
      if decide (frameNavigateListener ∈ active s)
      then onFrameNavigate hasParentFrame s else s
  | timeoutElapses =>
      if decide (timeout ∈ active s) then onTimeout (release timeout s) else s
  | loadStateReached =>
      if loadStatePending s then
        waitCallback
          {| requests := requests s; frameNavigated := frameNavigated s;
             waitBarrier := waitBarrier s; loadStatePending := false;
             active := active s; released := released s; position := position s |}
      else s
  | callbackResolves result =>
      match position s with
      | awaitCallback => afterCallback result s
      | _ => s
      end
  | callbackRejects error =>
      match position s with
      | awaitCallback => setPosition (thrown error) (dispose s)
      | _ => s
      end
  | waitForTimeoutResolves =>
      match position s with
      | awaitWaitForTimeout result => setPosition (returned result) (dispose s)
      | _ => s
      end
  | waitForTimeoutRejects error =>
      match position s with
      | awaitWaitForTimeout _ => setPosition (thrown error) (dispose s)
      | _ => s
      end
  end.

Definition run (events : list Event) : State := fold_left step events start.

Definition exited (s : State) : Prop :=
  match position s with
  | returned _ | thrown _ => True
  | _ => False
  end.

(** A resource is in [released] exactly when it is not active any
    more, and it is there once. *)
Definition accounted (s : State) : Prop :=
  NoDup (released s) /\ forall r, r ∈ released s <-> r ∉ active s.

Definition cleanOnExit (s : State) : Prop := exited s -> active s = ∅.
End Call.

Arguments Position : clear implicits.
Arguments State : clear implicits.
Arguments Event : clear implicits.

End Barrier.

(** ** An engine for the examples

    ["("] is malformed; any other pattern matches the texts it is a
    prefix of. *)
Definition exampleEngine : RegExpEngine :=
  fun pattern =>
    if String.eqb pattern "(" then None
    else Some (fun text => String.prefix pattern text).

(** ** What the two filter pipelines have in common

    Both tools build their predicate and run their two filtering steps in
    the same way over their own clause callback; these definitions say it
    once.  [passesInclude] and [passesExclude] read the two steps as
    conditions on a record. *)

Section Pipeline.
Context {A F : Type}.
Variable matches : A -> F -> Result bool.

Definition createFilter (filters : list F) (isInclude : bool) (x : A) : Result bool :=
  match filters with
  | [] => Ok isInclude
  | _ =>
      let! matchesAnyFilter := some (matches x) filters in
      Ok (if isInclude then matchesAnyFilter else negb matchesAnyFilter)
  end.

Definition filterRecords (records : list A) (include exclude : option (list F))
    : Result (list A) :=
  let! records :=
    match include with
    | Some include => filterArray (createFilter include true) records
    | None => Ok records
    end in
  match exclude with
  | Some exclude => filterArray (createFilter exclude false) records
  | None => Ok records
  end.

Definition passesInclude (include : option (list F)) (x : A) : Prop :=
  match include with
  | Some ((_ :: _) as filters) => exists filter, filter ∈ filters /\ matches x filter = Ok true
  | _ => True
  end.

Definition passesExclude (exclude : option (list F)) (x : A) : Prop :=
  match exclude with
  | Some [] => False
  | Some filters => forall filter, filter ∈ filters -> matches x filter = Ok false
  | None => True
  end.
End Pipeline.

(** ** Facts about slices and total lengths *)

Section SliceFacts.
Context {A : Type}.
Implicit Types l : list A.

Lemma slice_from l (k : nat) : JS.slice l (Z.of_nat k) None = drop k l.
Proof.
  unfold JS.slice, JS.relativeIndex.
  destruct (Z.ltb_spec (Z.of_nat k) 0) as [Hk|Hk]; [lia|].
  destruct (Z.min_spec (Z.of_nat k) (Z.of_nat (length l))) as [[Hlt ->]|[Hge ->]].
  - rewrite Nat2Z.id. apply take_ge. rewrite length_drop. lia.
  - rewrite Nat2Z.id, Z.sub_diag. simpl.
    rewrite !drop_ge by lia. reflexivity.
Qed.

Lemma slice_upto l (k : nat) : JS.slice l 0 (Some (Z.of_nat k)) = take k l.
Proof.
  unfold JS.slice, JS.relativeIndex. simpl.
  destruct (Z.ltb_spec (Z.of_nat k) 0) as [Hk|Hk]; [lia|].
  rewrite (Z.min_l 0) by lia. simpl. rewrite drop_0, Z.sub_0_r.
  destruct (Z.min_spec (Z.of_nat k) (Z.of_nat (length l))) as [[Hlt ->]|[Hge ->]].
  - rewrite Nat2Z.id. reflexivity.
  - rewrite Nat2Z.id. rewrite !take_ge by lia. reflexivity.
Qed.

(** [slice(0, count)] for a positive count: the first [count] entries,
    all of them when there are fewer. *)
Lemma slice_first l (count : Z) :
  0 < count -> JS.slice l 0 (Some count) = take (Z.to_nat count) l.
Proof.
  intros Hc. rewrite <- (Z2Nat.id count) at 1 by lia. apply slice_upto.
Qed.

(** [slice(-count)] for a positive count: the last [count] entries. *)
Lemma slice_last l (count : Z) :
  0 < count -> JS.slice l (- count) None = drop (length l - Z.to_nat count) l.
Proof.
  intros Hc. unfold JS.slice, JS.relativeIndex.
  destruct (Z.ltb_spec (- count) 0) as [_|Hk]; [|lia].
  replace (Z.to_nat (Z.max (Z.of_nat (length l) + - count) 0))
    with (length l - Z.to_nat count)%nat by lia.
  apply take_ge. rewrite length_drop. lia.
Qed.

Lemma slice_nil (start : Z) (end_ : option Z) : JS.slice (@nil A) start end_ = [].
Proof. unfold JS.slice. rewrite drop_nil. apply take_nil. Qed.
End SliceFacts.

Section TrimFacts.
Import Utils.
Implicit Types strings rest : list string.
Local Arguments stringArrayTotalLength : simpl never.

Lemma strLength_nonneg (s : string) : 0 <= JS.strLength s.
Proof. unfold JS.strLength. lia. Qed.

Lemma totalLength_from strings (a : Z) :
  fold_left (fun length str => length + JS.strLength str) strings a
  = a + stringArrayTotalLength strings.
Proof.
  unfold stringArrayTotalLength. revert a.
  induction strings as [|s strings IH]; intros a; simpl; [lia|].
  rewrite (IH (a + _)), (IH (0 + _)). lia.
Qed.

Lemma totalLength_nil : stringArrayTotalLength [] = 0.
Proof. reflexivity. Qed.

Lemma totalLength_cons s strings :
  stringArrayTotalLength (s :: strings) = JS.strLength s + stringArrayTotalLength strings.
Proof. unfold stringArrayTotalLength at 1. simpl. apply totalLength_from. Qed.

Lemma totalLength_app strings rest :
  stringArrayTotalLength (strings ++ rest)
  = stringArrayTotalLength strings + stringArrayTotalLength rest.
Proof.
  induction strings as [|s strings IH]; simpl.
  - rewrite totalLength_nil. lia.
  - rewrite !totalLength_cons, IH. lia.
Qed.

Lemma totalLength_nonneg strings : 0 <= stringArrayTotalLength strings.
Proof.
  induction strings as [|s strings IH].
  - rewrite totalLength_nil. lia.
  - rewrite totalLength_cons. pose proof (strLength_nonneg s). lia.
Qed.

Lemma take_S_nth strings (i : nat) :
  (i < length strings)%nat ->
  take (S i) strings = take i strings ++ [nth i strings ""].
Proof.
  intros Hi. destruct (lookup_lt_is_Some_2 strings i Hi) as [x Hx].
  rewrite (take_S_r _ _ _ Hx). f_equal. f_equal.
  symmetry. apply nth_lookup_Some with (d := ""). exact Hx.
Qed.

(** The forward loop stops at the first line that does not fit: it keeps
    [k] lines, and the next one, when there is one, overflows. *)
Lemma trimLoopStart_run rest (m : Z) : forall (i : nat) (len : Z),
  exists k : nat,
    trimLoopStart rest (Some m) i len i = (i + k)%nat
    /\ (k <= length rest)%nat
    /\ (len <= m -> len + stringArrayTotalLength (take k rest) <= m)
    /\ ((k < length rest)%nat -> m < len + stringArrayTotalLength (take (S k) rest)).
Proof.
  induction rest as [|s rest IH]; intros i len; simpl.
  - exists 0%nat. simpl. rewrite totalLength_nil. repeat split; lia.
  - destruct (Z.gtb_spec (len + JS.strLength s) m) as [Hgt|Hle].
    + exists 0%nat. simpl. rewrite take_0, totalLength_cons, !totalLength_nil.
      repeat split; lia.
    + destruct (IH (S i) (len + JS.strLength s)) as (k & Hr & Hk & Hfit & Hnext).
      exists (S k). rewrite Hr. simpl.
      rewrite totalLength_cons.
      repeat split; try lia.
      intros Hlt. specialize (Hnext ltac:(lia)).
      rewrite totalLength_cons. simpl in Hnext. lia.
Qed.

Lemma totalLength_drop_take_S strings (r i : nat) :
  (r <= i)%nat -> (i < length strings)%nat ->
  stringArrayTotalLength (drop r (take (S i) strings))
  = stringArrayTotalLength (drop r (take i strings)) + JS.strLength (nth i strings "").
Proof.
  intros Hr Hi. rewrite take_S_nth by exact Hi.
  rewrite drop_app_le by (rewrite length_take; lia).
  rewrite totalLength_app, totalLength_cons, totalLength_nil. lia.
Qed.

Lemma totalLength_drop_take_same strings (i : nat) :
  stringArrayTotalLength (drop i (take i strings)) = 0.
Proof. rewrite drop_ge by (rewrite length_take; lia). apply totalLength_nil. Qed.

(** The backward loop leaves [index] untouched when it stops at once,
    and otherwise ends on the start of the trailing run that fits. *)
Lemma trimLoopEnd_run strings (m : Z) : forall (n : nat) (len : Z) (index : nat),
  (n <= length strings)%nat ->
  let r := trimLoopEnd strings (Some m) n len index in
  (r = index /\ (n = 0%nat \/
      exists i, n = S i /\ m < len + JS.strLength (nth i strings "")))
  \/ ((r < n)%nat
      /\ len + stringArrayTotalLength (drop r (take n strings)) <= m
      /\ (forall r', r = S r' ->
            m < len + stringArrayTotalLength (drop r' (take n strings)))).
Proof.
  induction n as [|i IH]; intros len index Hn; simpl.
  - left. split; [reflexivity | left; reflexivity].
  - destruct (Z.gtb_spec (len + JS.strLength (nth i strings "")) m) as [Hgt|Hle].
    + left. split; [reflexivity | right; exists i; split; [reflexivity | lia]].
    + right.
      destruct (IH (len + JS.strLength (nth i strings "")) i ltac:(lia))
        as [[Hr Hstop] | (Hr & Hfit & Hnext)].
      * rewrite Hr. split; [lia|].
        rewrite totalLength_drop_take_S, totalLength_drop_take_same by lia.
        split; [lia|]. intros r' Hi.
        destruct Hstop as [Hz | (i' & Hi' & Hm)]; [lia|].
        assert (i' = r') as -> by lia. subst i.
        rewrite !totalLength_drop_take_S, totalLength_drop_take_same by lia. lia.
      * split; [lia|]. rewrite totalLength_drop_take_S by lia.
        split; [lia|]. intros r' Hr'. specialize (Hnext r' Hr').
        rewrite totalLength_drop_take_S by lia. lia.
Qed.

(** What [stringArrayTrimToLength] returns, branch by branch. *)
Lemma trimToLength_start strings (m : Z) :
  exists k : nat,
    stringArrayTrimToLength strings (Some m) false = take k strings
    /\ (k <= length strings)%nat
    /\ (0 <= m -> stringArrayTotalLength (take k strings) <= m)
    /\ ((k < length strings)%nat -> m < stringArrayTotalLength (take (S k) strings)).
Proof.
  unfold stringArrayTrimToLength.
  destruct (trimLoopStart_run strings m 0 0) as (k & Hr & Hk & Hfit & Hnext).
  exists k. rewrite Hr, slice_upto. simpl. repeat split; try lia.
Qed.

Lemma trimToLength_end_fits strings (m : Z) :
  JS.strLength (List.last strings "") <= m ->
  exists r : nat,
    stringArrayTrimToLength strings (Some m) true = drop r strings
    /\ (r <= length strings)%nat
    /\ (0 <= m -> stringArrayTotalLength (drop r strings) <= m)
    /\ (forall r', r = S r' -> m < stringArrayTotalLength (drop r' strings)).
Proof.
  intros Hlast. unfold stringArrayTrimToLength.
  destruct (trimLoopEnd_run strings m (length strings) 0 0 (Nat.le_refl _))
    as [[Hr Hstop] | (Hr & Hfit & Hnext)]; cbv zeta in *.
  - rewrite Hr, slice_from. destruct Hstop as [Hz | (i & Hi & Hm)].
    + exists 0%nat. destruct strings; [|discriminate].
      simpl. rewrite totalLength_nil. repeat split; try lia.
    + exfalso. rewrite <- (firstn_all strings) in Hlast at 1.
      rewrite Hi, take_S_nth in Hlast by lia.
      rewrite List.last_last in Hlast. lia.
  - rewrite slice_from. rewrite firstn_all in Hfit, Hnext.
    exists (trimLoopEnd strings (Some m) (length strings) 0 0).
    repeat split; try lia. intros r' Hr'. specialize (Hnext r' Hr'). lia.
Qed.

(** The slip of the backward loop: [index] starts at [0], so when the
    last line alone overflows the whole array is returned. *)
Lemma trimToLength_end_overflow strings (m : Z) :
  strings <> [] -> m < JS.strLength (List.last strings "") ->
  stringArrayTrimToLength strings (Some m) true = strings.
Proof.
  intros Hne Hlast. unfold stringArrayTrimToLength.
  destruct (exists_last Hne) as (front & s & ->).
  rewrite List.last_last in Hlast.
  rewrite length_app. simpl. rewrite Nat.add_1_r. simpl.
  rewrite app_nth2, Nat.sub_diag by lia. simpl.
  destruct (Z.gtb_spec (0 + JS.strLength s) m); [|lia].
  apply (slice_from _ 0).
Qed.

(** When the lines still to visit all fit, the loop runs to the end. *)
Lemma trimLoopEnd_fits strings (m : Z) : forall (n : nat) (len : Z) (index : nat),
  (n <= length strings)%nat ->
  len + stringArrayTotalLength (take n strings) <= m ->
  trimLoopEnd strings (Some m) n len index = match n with O => index | S _ => 0%nat end.
Proof.
  induction n as [|i IH]; intros len index Hn Hfit; simpl; [reflexivity|].
  rewrite take_S_nth, totalLength_app, totalLength_cons, totalLength_nil in Hfit by lia.
  pose proof (totalLength_nonneg (take i strings)).
  destruct (Z.gtb_spec (len + JS.strLength (nth i strings "")) m) as [Hgt|Hle]; [lia|].
  rewrite IH by lia. destruct i; reflexivity.
Qed.

(** A bound that is not a number never stops a loop. *)
Lemma trimLoopStart_nan rest : forall (i : nat) (len : Z) (index : nat),
  trimLoopStart rest None i len index
  = match rest with [] => index | _ => (i + length rest)%nat end.
Proof.
  induction rest as [|s rest IH]; intros i len index; simpl; [reflexivity|].
  rewrite IH. destruct rest; simpl; lia.
Qed.

Lemma trimLoopEnd_nan strings : forall (n : nat) (len : Z) (index : nat),
  trimLoopEnd strings None n len index = match n with O => index | S _ => 0%nat end.
Proof.
  induction n as [|i IH]; intros len index; simpl; [reflexivity|].
  rewrite IH. destruct i; reflexivity.
Qed.

Lemma trimToLength_nan strings (preferEnd : bool) :
  stringArrayTrimToLength strings None preferEnd = strings.
Proof.
  unfold stringArrayTrimToLength. destruct preferEnd.
  - rewrite trimLoopEnd_nan, slice_from.
    destruct (length strings); apply drop_0.
  - rewrite trimLoopStart_nan, slice_upto.
    destruct strings; [reflexivity|]. apply take_ge. simpl. lia.
Qed.

(** The sign of a rounded double is the sign that was asked for, so the
    budget of the first slice is never negative for a budget that is
    not. *)
Lemma binary_round_aux_nonnegative (mx ex : Z) (lx : location) :
  JS.nonnegative (binary_round_aux JS.prec JS.emax false mx ex lx).
Proof.
  unfold binary_round_aux.
  destruct (shr_fexp _ _ mx ex lx) as [mrs' e'].
  destruct (shr_fexp _ _ _ e' loc_Exact) as [mrs'' e''].
  destruct (shr_m mrs''); simpl; trivial.
  destruct (Z.leb e'' _); simpl; trivial.
Qed.

Lemma ofZ_nonnegative (n : Z) : 0 <= n -> JS.nonnegative (JS.ofZ n).
Proof.
  intros Hn. unfold JS.ofZ, binary_normalize. destruct n as [|p|p]; simpl; [trivial| |lia].
  unfold binary_round. destruct (shl_align _ _ _) as [mz ez].
  apply binary_round_aux_nonnegative.
Qed.

Lemma fdiv_nonnegative (x y : spec_float) :
  JS.nonnegative x -> JS.nonnegative y -> JS.nonnegative (JS.fdiv x y).
Proof.
  unfold JS.fdiv, SFdiv.
  destruct x as [sx|sx| |sx mx ex], y as [sy|sy| |sy my ey]; simpl;
    intros Hx Hy; subst; simpl; trivial.
  match goal with
  | |- context [SFdiv_core_binary ?p ?e ?m1 ?e1 ?m2 ?e2] =>
      destruct (SFdiv_core_binary p e m1 e1 m2 e2) as [[mz ez] lz]
  end.
  apply binary_round_aux_nonnegative.
Qed.

Lemma fmul_nonnegative (x y : spec_float) :
  JS.nonnegative x -> JS.nonnegative y -> JS.nonnegative (JS.fmul x y).
Proof.
  unfold JS.fmul, SFmul.
  destruct x as [sx|sx| |sx mx ex], y as [sy|sy| |sy my ey]; simpl;
    intros Hx Hy; subst; simpl; trivial.
  apply binary_round_aux_nonnegative.
Qed.

Lemma floor_nonnegative (x : spec_float) (z : Z) :
  JS.nonnegative x -> JS.floor x = Some z -> 0 <= z.
Proof.
  destruct x as [sx|sx| |sx mx ex]; simpl; intros Hx Hz; try discriminate.
  - injection Hz as <-. lia.
  - subst sx. injection Hz as <-. apply Z.shiftl_nonneg. lia.
Qed.

Lemma splitBudget_nonneg (budget lengthFirst totalLength budgetFirst : Z) :
  0 <= budget -> 0 <= lengthFirst -> 0 <= totalLength ->
  splitBudget budget lengthFirst totalLength = Some budgetFirst ->
  0 <= budgetFirst.
Proof.
  intros Hb Hf Ht. unfold splitBudget. apply floor_nonnegative.
  apply fmul_nonnegative; [|apply fdiv_nonnegative]; apply ofZ_nonnegative; assumption.
Qed.
End TrimFacts.

(** ** The window trimmer *)

Section WindowTrimmer.
Import Utils.
Implicit Types strings : list string.
Local Arguments stringArrayTotalLength : simpl never.

Lemma trimToLength_start_shape strings (maxLength : option Z) :
  exists k : nat,
    (k <= length strings)%nat
    /\ stringArrayTrimToLength strings maxLength false = take k strings.
Proof.
  unfold stringArrayTrimToLength. rewrite slice_upto.
  set (k := trimLoopStart strings maxLength 0 0 0).
  exists (Nat.min k (length strings)). split; [lia|].
  destruct (Nat.le_ge_cases k (length strings)).
  - rewrite Nat.min_l by lia. reflexivity.
  - rewrite Nat.min_r by lia. rewrite !take_ge by lia. reflexivity.
Qed.

Lemma trimToLength_end_shape strings (maxLength : option Z) :
  exists r : nat,
    (r <= length strings)%nat
    /\ stringArrayTrimToLength strings maxLength true = drop r strings.
Proof.
  unfold stringArrayTrimToLength. rewrite slice_from.
  set (r := trimLoopEnd strings maxLength (length strings) 0 0).
  exists (Nat.min r (length strings)). split; [lia|].
  destruct (Nat.le_ge_cases r (length strings)).
  - rewrite Nat.min_l by lia. reflexivity.
  - rewrite Nat.min_r by lia. rewrite !drop_ge by lia. reflexivity.
Qed.

(** C7. When every line fits (total length at most the budget) and
    neither [first] nor [last] is given, [stringArrayApplyLimits]
    returns its input: the same lines in the same order, and no marker. *)
Theorem full_pass_unchanged strings (budget : Z) :
  stringArrayTotalLength strings <= budget ->
  stringArrayApplyLimits strings
    {| maxTotalLength := budget; countFirst := None; countLast := None |} = strings.
Proof.
  intros Hfit. unfold stringArrayApplyLimits, stringArrayTrimToLength. simpl.
  rewrite trimLoopEnd_fits by (rewrite ?firstn_all; lia).
  assert (Hidx : match length strings with O => 0%nat | S _ => 0%nat end = 0%nat)
    by (destruct (length strings); reflexivity).
  rewrite Hidx, (slice_from strings 0), drop_0, Z.sub_diag. reflexivity.
Qed.

Lemma full_pass_unchanged_witness :
  stringArrayApplyLimits ["[LOG] one"; "[LOG] two"]
    {| maxTotalLength := 2000; countFirst := None; countLast := None |}
  = ["[LOG] one"; "[LOG] two"].
Proof. apply full_pass_unchanged. vm_compute. discriminate. Defined.

(** With neither count given, a last line longer than the budget brings
    the whole input back. *)
Lemma last_line_overflow_returns_all strings (budget : Z) :
  strings <> [] -> budget < JS.strLength (List.last strings "") ->
  stringArrayApplyLimits strings
    {| maxTotalLength := budget; countFirst := None; countLast := None |} = strings.
Proof.
  intros Hne Hlast. unfold stringArrayApplyLimits.
  cbn [maxTotalLength countFirst countLast JS.truthy].
  rewrite trimToLength_end_overflow by assumption.
  rewrite Z.sub_diag. reflexivity.
Qed.

(** C1. The budget is not respected by the code: with neither count
    given, a last line longer than the budget makes the backward loop
    stop before it moves [index], and the whole input is returned.  The
    forward branch drops the same line. *)
Theorem budget_exceeded_by_last_line :
  let strings := ["aaaaa"] in
  stringArrayApplyLimits strings
    {| maxTotalLength := 3; countFirst := None; countLast := None |} = strings
  /\ 3 < stringArrayTotalLength strings
  /\ stringArrayApplyLimits strings
       {| maxTotalLength := 3; countFirst := Some 1; countLast := None |}
     = ["[1 messages trimmed]"].
Proof. vm_compute. repeat split; reflexivity. Qed.

(** Nothing comes out of no lines, whatever the counts. *)
Lemma applyLimits_nil (options : StringArrayApplyLimitsOptions) :
  0 <= maxTotalLength options -> stringArrayApplyLimits [] options = [].
Proof.
  intros Hmax. unfold stringArrayApplyLimits, stringArrayTrimToLength.
  destruct (JS.truthy (countFirst options)) as [F|],
           (JS.truthy (countLast options)) as [L|];
    rewrite ?slice_nil; cbn [length trimLoopEnd trimLoopStart];
    rewrite ?slice_nil; try reflexivity.
  rewrite totalLength_nil.
  destruct (Z.gtb_spec (0 + 0) (maxTotalLength options)); [lia | reflexivity].
Qed.

Lemma truthy_nonzero (count : Z) : count <> 0 -> JS.truthy (Some count) = Some count.
Proof. intros Hc. simpl. destruct (Z.eqb_spec count 0); [contradiction | reflexivity]. Qed.

(** C2, as the specification states it, fails: with [first = 1] the
    marker counts the one line cut from the selected slice, while two
    lines of the input are missing from what is returned.  It fails as
    well when the two slices overlap: with one line, [first = 2] and
    [last = 2], the line is returned and the marker counts [-2]. *)
Lemma marker_counts_slice_not_input :
  ~ markerCountsExcluded ["aaa"; "bbb"]
      {| maxTotalLength := 2; countFirst := Some 1; countLast := None |}
  /\ ~ markerCountsExcluded ["aaa"]
        {| maxTotalLength := 5; countFirst := Some 2; countLast := Some 2 |}.
Proof.
  split; intros Hclaim.
  - specialize (Hclaim [] (trimmedMarker 1) [] 1 eq_refl (or_intror eq_refl)).
    simpl in Hclaim. lia.
  - specialize (Hclaim [] (skippedMarker (-2)) ["aaa"] (-2) eq_refl (or_introl eq_refl)).
    simpl in Hclaim. lia.
Qed.

(** C2, amended.  A marker counts the lines that the budget cut from
    the selection.  With neither count given the selection is the whole
    input; with only [first] or only [last] it is that slice, and the
    lines of the input outside the slice are not counted; with both
    counts positive and at most as many as there are lines together,
    the marker counts every line of the input that is not returned. *)
Theorem marker_counts_dropped strings (budget : Z) :
  (exists dropped kept,
      strings = dropped ++ kept
      /\ stringArrayApplyLimits strings
           {| maxTotalLength := budget; countFirst := None; countLast := None |}
         = match dropped with
           | [] => kept
           | _ => trimmedMarker (Z.of_nat (length dropped)) :: kept
           end)
  /\ (forall F, F <> 0 ->
      exists kept dropped,
        JS.slice strings 0 (Some F) = kept ++ dropped
        /\ stringArrayApplyLimits strings
             {| maxTotalLength := budget; countFirst := Some F; countLast := None |}
           = match dropped with
             | [] => kept
             | _ => kept ++ [trimmedMarker (Z.of_nat (length dropped))]
             end)
  /\ (forall L, L <> 0 ->
      exists dropped kept,
        JS.slice strings (- L) None = dropped ++ kept
        /\ stringArrayApplyLimits strings
             {| maxTotalLength := budget; countFirst := None; countLast := Some L |}
           = match dropped with
             | [] => kept
             | _ => trimmedMarker (Z.of_nat (length dropped)) :: kept
             end)
  /\ (forall F L, 0 < F -> 0 < L -> F + L <= Z.of_nat (length strings) ->
      budget < stringArrayTotalLength (JS.slice strings 0 (Some F))
               + stringArrayTotalLength (JS.slice strings (- L) None) ->
      exists keptFirst dropped keptLast,
        strings = keptFirst ++ dropped ++ keptLast
        /\ stringArrayApplyLimits strings
             {| maxTotalLength := budget; countFirst := Some F; countLast := Some L |}
           = keptFirst ++ [skippedMarker (Z.of_nat (length dropped))] ++ keptLast).
Proof.
  split; [|split; [|split]].
  - unfold stringArrayApplyLimits. cbn [maxTotalLength countFirst countLast JS.truthy].
    destruct (trimToLength_end_shape strings (Some budget)) as (r & Hr & ->).
    exists (take r strings), (drop r strings).
    split; [symmetry; apply take_drop|].
    rewrite length_drop.
    destruct (take r strings) as [|s dropped] eqn:Hd.
    + apply (f_equal length) in Hd. rewrite length_take in Hd. simpl in Hd.
      destruct (Z.gtb_spec (Z.of_nat (length strings)
                 - Z.of_nat (length strings - r)) 0); [lia | reflexivity].
    + apply (f_equal length) in Hd. rewrite length_take in Hd.
      rewrite <- Hd.
      destruct (Z.gtb_spec (Z.of_nat (length strings)
                 - Z.of_nat (length strings - r)) 0) as [Hgt|Hle];
        [| simpl in Hd; lia].
      do 2 f_equal. lia.
  - intros F HF. unfold stringArrayApplyLimits.
    cbn [maxTotalLength countFirst countLast]. rewrite (truthy_nonzero F HF).
    cbn [JS.truthy].
    set (result := JS.slice strings 0 (Some F)).
    destruct (trimToLength_start_shape result (Some budget)) as (k & Hk & ->).
    exists (take k result), (drop k result).
    split; [symmetry; apply take_drop|].
    rewrite length_take.
    destruct (drop k result) as [|s dropped] eqn:Hd;
      apply (f_equal length) in Hd; rewrite length_drop in Hd; simpl in Hd.
    + destruct (Z.gtb_spec (Z.of_nat (length result)
                 - Z.of_nat (k `min` length result)) 0); [lia | reflexivity].
    + destruct (Z.gtb_spec (Z.of_nat (length result)
                 - Z.of_nat (k `min` length result)) 0) as [Hgt|Hle]; [|lia].
      do 3 f_equal. simpl. lia.
  - intros L HL. unfold stringArrayApplyLimits.
    cbn [maxTotalLength countFirst countLast]. rewrite (truthy_nonzero L HL).
    cbn [JS.truthy].
    set (result := JS.slice strings (- L) None).
    destruct (trimToLength_end_shape result (Some budget)) as (r & Hr & ->).
    exists (take r result), (drop r result).
    split; [symmetry; apply take_drop|].
    rewrite length_drop.
    destruct (take r result) as [|s dropped] eqn:Hd;
      apply (f_equal length) in Hd; rewrite length_take in Hd; simpl in Hd.
    + destruct (Z.gtb_spec (Z.of_nat (length result)
                 - Z.of_nat (length result - r)) 0); [lia | reflexivity].
    + destruct (Z.gtb_spec (Z.of_nat (length result)
                 - Z.of_nat (length result - r)) 0) as [Hgt|Hle]; [|lia].
      do 2 f_equal. simpl. lia.
  - intros F L HF HL HFL Hover. unfold stringArrayApplyLimits.
    cbn [maxTotalLength countFirst countLast].
    rewrite (truthy_nonzero F), (truthy_nonzero L) by lia.
    destruct (Z.gtb_spec (stringArrayTotalLength (JS.slice strings 0 (Some F))
                + stringArrayTotalLength (JS.slice strings (- L) None)) budget)
      as [_|Hle]; [|lia].
    cbv zeta.
    set (maxLengthFirst := splitBudget _ _ _).
    set (maxLengthLast := _ <$> maxLengthFirst).
    rewrite (slice_first strings F HF), (slice_last strings L HL).
    set (f := Z.to_nat F). set (l := Z.to_nat L).
    set (firstN := take f strings). set (lastN := drop (length strings - l) strings).
    destruct (trimToLength_start_shape firstN maxLengthFirst) as (k & Hk & ->).
    destruct (trimToLength_end_shape lastN maxLengthLast) as (r & Hr & ->).
    assert (HlenF : length firstN = f) by (unfold firstN; rewrite length_take; lia).
    assert (HlenL : length lastN = l) by (unfold lastN; rewrite length_drop; lia).
    exists (take k firstN),
      (drop k firstN ++ drop f (take (length strings - l) strings) ++ take r lastN),
      (drop r lastN).
    split.
    + rewrite <- !app_assoc. rewrite (take_drop r lastN).
      rewrite app_assoc, take_drop. unfold firstN, lastN.
      rewrite <- (take_drop (length strings - l) strings) at 1.
      rewrite <- (take_drop f (take (length strings - l) strings)) at 1.
      rewrite take_take, Nat.min_l by lia. rewrite <- app_assoc. reflexivity.
    + do 3 f_equal. rewrite !length_app, !length_drop, !length_take.
      rewrite HlenF, HlenL in *. f_equal. unfold f, l in *. lia.
Qed.

Lemma marker_counts_dropped_witness :
  exists keptFirst dropped keptLast,
    ["aaa"; "bbb"; "ccc"; "ddd"] = keptFirst ++ dropped ++ keptLast
    /\ stringArrayApplyLimits ["aaa"; "bbb"; "ccc"; "ddd"]
         {| maxTotalLength := 7; countFirst := Some 2; countLast := Some 2 |}
       = keptFirst ++ [skippedMarker (Z.of_nat (length dropped))] ++ keptLast.
Proof.
  apply (proj2 (proj2 (proj2 (marker_counts_dropped ["aaa"; "bbb"; "ccc"; "ddd"] 7))));
    [lia | lia | simpl; lia | vm_compute; reflexivity].
Defined.

(** The overlap of the two slices is not accounted for by the count of
    the marker: one line, [first = 2], [last = 2]. *)
Example marker_count_overlap :
  stringArrayApplyLimits ["aaa"]
    {| maxTotalLength := 5; countFirst := Some 2; countLast := Some 2 |}
  = ["[-2 messages skipped]"; "aaa"].
Proof. vm_compute. reflexivity. Qed.

(** C5, as the specification states it, fails: the quotient
    [lengthFirst / totalLength] is rounded to a double before it is
    multiplied, and the floor of the product can fall one below the
    floor of the exact value.  Here the exact floor is 15 and would keep
    the first line of 15 characters; the code computes 14 and keeps
    none of the first slice.  The same happens with the budget of the
    two tools, 2000. *)
Lemma split_budget_below_exact_floor :
  let strings := ["aaaaaaaaaaaaaaa"; "aaaaaaaaaaaaaaa"; "bbbbbbb"; "bbbbbbb"] in
  let lenFirst := stringArrayTotalLength (JS.slice strings 0 (Some 2)) in
  let lenLast := stringArrayTotalLength (JS.slice strings (- 2) None) in
  22 < lenFirst + lenLast
  /\ specSplitBudget 22 lenFirst lenLast = 15
  /\ splitBudget 22 lenFirst (lenFirst + lenLast) = Some 14
  /\ splitBudget 22 lenFirst (lenFirst + lenLast)
     <> Some (specSplitBudget 22 lenFirst lenLast)
  /\ stringArrayApplyLimits strings
       {| maxTotalLength := 22; countFirst := Some 2; countLast := Some 2 |}
     = ["[3 messages skipped]"; "bbbbbbb"]
  /\ splitBudget 2000 1206 (1206 + 1194) = Some 1004
  /\ specSplitBudget 2000 1206 1194 = 1005.
Proof. vm_compute. repeat split; try reflexivity. discriminate. Qed.

(** C5, amended.  With both counts given and the two slices together
    longer than the budget, the budget of the first slice is the floor
    of the double-precision product
    [maxTotalLength * (lengthFirst / totalLength)], which is not
    negative, and the last slice gets the rest.  The first slice is cut
    to its longest leading run that fits its budget; the last slice,
    when its last line fits its budget, to its longest trailing run
    that fits.  One side may get a budget of zero. *)
Theorem proportional_split strings (budget F L : Z) :
  let firstN := JS.slice strings 0 (Some F) in
  let lastN := JS.slice strings (- L) None in
  let lenFirst := stringArrayTotalLength firstN in
  let lenLast := stringArrayTotalLength lastN in
  0 <= budget -> 0 < F -> 0 < L -> budget < lenFirst + lenLast ->
  (exists trimmedFirst trimmedLast n,
    stringArrayApplyLimits strings
      {| maxTotalLength := budget; countFirst := Some F; countLast := Some L |}
    = trimmedFirst ++ [skippedMarker n] ++ trimmedLast
    /\ match splitBudget budget lenFirst (lenFirst + lenLast) with
       | Some budgetFirst =>
           let budgetLast := budget - budgetFirst in
           0 <= budgetFirst
           /\ (exists k : nat,
                 trimmedFirst = take k firstN
                 /\ (k <= length firstN)%nat
                 /\ stringArrayTotalLength (take k firstN) <= budgetFirst
                 /\ ((k < length firstN)%nat ->
                       budgetFirst < stringArrayTotalLength (take (S k) firstN)))
           /\ (JS.strLength (List.last lastN "") <= budgetLast ->
                 exists r : nat,
                   trimmedLast = drop r lastN
                   /\ (r <= length lastN)%nat
                   /\ (0 <= budgetLast ->
                         stringArrayTotalLength (drop r lastN) <= budgetLast)
                   /\ (forall r', r = S r' ->
                         budgetLast < stringArrayTotalLength (drop r' lastN)))
       | None => trimmedFirst = firstN /\ trimmedLast = lastN
       end)
  /\ splitBudget 10 1 (1 + 99) = Some 0.
Proof.
  intros firstN lastN lenFirst lenLast Hb HF HL Hover.
  split; [|vm_compute; reflexivity].
  unfold stringArrayApplyLimits. cbn [maxTotalLength countFirst countLast].
  rewrite (truthy_nonzero F), (truthy_nonzero L) by lia.
  fold firstN lastN. fold lenFirst lenLast.
  destruct (Z.gtb_spec (lenFirst + lenLast) budget) as [_|Hle]; [|lia].
  cbv zeta.
  pose proof (totalLength_nonneg firstN) as HposF.
  pose proof (totalLength_nonneg lastN) as HposL.
  destruct (splitBudget budget lenFirst (lenFirst + lenLast))
    as [budgetFirst|] eqn:Hsplit; cbn [fmap option_fmap option_map].
  - eexists _, _, _. split; [reflexivity|].
    assert (Hnn : 0 <= budgetFirst)
      by (apply (splitBudget_nonneg budget lenFirst (lenFirst + lenLast));
          [exact Hb | exact HposF | unfold lenFirst, lenLast; lia | exact Hsplit]).
    split; [exact Hnn|]. split.
    + destruct (trimToLength_start firstN budgetFirst) as (k & Hk & Hlen & Hfit & Hnext).
      exists k. rewrite Hk. auto.
    + intros Hlast.
      destruct (trimToLength_end_fits lastN (budget - budgetFirst) Hlast)
        as (r & Hr & Hlen & Hfit & Hnext).
      exists r. rewrite Hr. auto.
  - rewrite !trimToLength_nan. eexists _, _, _. split; [reflexivity|]. split; reflexivity.
Qed.

Lemma proportional_split_witness :
  exists trimmedFirst trimmedLast n,
    stringArrayApplyLimits ["aaaaa"; "bbbbb"; "ccccc"; "ddddd"; "eeeee"]
      {| maxTotalLength := 12; countFirst := Some 2; countLast := Some 2 |}
    = trimmedFirst ++ [skippedMarker n] ++ trimmedLast.
Proof.
  destruct (proj1 (proportional_split ["aaaaa"; "bbbbb"; "ccccc"; "ddddd"; "eeeee"] 12 2 2
              ltac:(lia) ltac:(lia) ltac:(lia) ltac:(vm_compute; reflexivity)))
    as (trimmedFirst & trimmedLast & n & Hresult & _).
  exists trimmedFirst, trimmedLast, n. exact Hresult.
Defined.
End WindowTrimmer.

(** ** The filters *)

Section ArrayCallbacks.
Context {A : Type}.
Implicit Types (callback : A -> Result bool) (array : list A).

Lemma some_false callback array :
  some callback array = Ok false ->
  forall x, x ∈ array -> callback x = Ok false.
Proof.
  induction array as [|y array IH]; simpl; intros Hsome x Hx.
  - inversion Hx.
  - destruct (callback y) as [[|]|e] eqn:Hy; simpl in Hsome; try discriminate.
    apply elem_of_cons in Hx as [->|Hx]; [exact Hy | exact (IH Hsome x Hx)].
Qed.

Lemma some_throw callback array (e : Error) :
  some callback array = Throw e ->
  exists x, x ∈ array /\ callback x = Throw e.
Proof.
  induction array as [|y array IH]; simpl; intros Hsome; [discriminate|].
  destruct (callback y) as [[|]|e'] eqn:Hy; simpl in Hsome; try discriminate.
  - destruct (IH Hsome) as (x & Hx & Hcx). exists x. split; [right; exact Hx | exact Hcx].
  - injection Hsome as ->. exists y. split; [left | exact Hy].
Qed.

Lemma some_returns callback array :
  (forall x, x ∈ array -> exists b, callback x = Ok b) ->
  exists b, some callback array = Ok b.
Proof.
  induction array as [|y array IH]; simpl; intros Hall; [eauto|].
  destruct (Hall y ltac:(left)) as [[|] ->]; simpl; [eauto|].
  apply IH. intros x Hx. apply Hall. right. exact Hx.
Qed.

Lemma filterArray_kept callback array (out : list A) :
  filterArray callback array = Ok out ->
  forall x, x ∈ out -> x ∈ array /\ callback x = Ok true.
Proof.
  revert out. induction array as [|y array IH]; simpl; intros out Hf x Hx.
  - injection Hf as <-. inversion Hx.
  - destruct (callback y) as [b|e] eqn:Hy; simpl in Hf; [|discriminate].
    destruct (filterArray callback array) as [rest|e]; simpl in Hf; [|discriminate].
    injection Hf as <-. destruct b.
    + apply elem_of_cons in Hx as [->|Hx].
      * split; [left | exact Hy].
      * destruct (IH rest eq_refl x Hx). split; [right|]; assumption.
    + destruct (IH rest eq_refl x Hx). split; [right|]; assumption.
Qed.

Lemma filterArray_throw callback array (e : Error) :
  filterArray callback array = Throw e ->
  exists x, x ∈ array /\ callback x = Throw e.
Proof.
  induction array as [|y array IH]; simpl; intros Hf; [discriminate|].
  destruct (callback y) as [b|e'] eqn:Hy; simpl in Hf.
  - destruct (filterArray callback array) as [rest|e'']; simpl in Hf; [discriminate|].
    injection Hf as ->. destruct (IH eq_refl) as (x & Hx & Hcx).
    exists x. split; [right; exact Hx | exact Hcx].
  - injection Hf as ->. exists y. split; [left | exact Hy].
Qed.

Lemma filterArray_throws callback array x (e : Error) :
  x ∈ array -> callback x = Throw e -> exists e', filterArray callback array = Throw e'.
Proof.
  induction array as [|y array IH]; intros Hx Hthrow; [inversion Hx|]. simpl.
  apply elem_of_cons in Hx as [<-|Hx].
  - rewrite Hthrow. simpl. eauto.
  - destruct (callback y) as [b|e'']; simpl; [|eauto].
    destruct (IH Hx Hthrow) as [e' ->]. simpl. eauto.
Qed.

Lemma filterArray_returns callback array :
  (forall x, x ∈ array -> exists b, callback x = Ok b) ->
  exists out, filterArray callback array = Ok out.
Proof.
  induction array as [|y array IH]; simpl; intros Hall; [eauto|].
  destruct (Hall y ltac:(left)) as [b ->]; simpl.
  destruct IH as [rest ->]; [intros x Hx; apply Hall; right; exact Hx|].
  simpl. eauto.
Qed.

Lemma filterArray_const callback array (b : bool) :
  (forall x, callback x = Ok b) ->
  filterArray callback array = Ok (if b then array else []).
Proof.
  intros Hall. induction array as [|y array IH]; simpl; [destruct b; reflexivity|].
  rewrite Hall, IH. simpl. destruct b; reflexivity.
Qed.

End ArrayCallbacks.

Section Filters.
Implicit Types (engine : RegExpEngine) (hostname : string -> option string).

(** C3. A record that matches a clause of [exclude] is not in the
    filtered records, whatever [include] is, in the console tool and in
    the network tool. *)
Theorem exclude_overrides_include engine hostname :
  (forall consoleMessages params exclude out message filter,
      Console.exclude params = Some exclude ->
      Console.filterMessages engine consoleMessages params = Ok out ->
      filter ∈ exclude ->
      Console.matchesFilter engine message filter = Ok true ->
      message ∉ out)
  /\ (forall requests currentPageUrl params exclude out entry filter,
      Network.exclude params = Some exclude ->
      Network.filterEntries engine hostname requests currentPageUrl params = Ok out ->
      filter ∈ exclude ->
      Network.matchesFilter engine hostname currentPageUrl entry filter = Ok true ->
      entry ∉ out).
Proof.
  split.
  - intros consoleMessages params exclude out message filter Hex Hout Hfilter Hmatch Hin.
    unfold Console.filterMessages in Hout. rewrite Hex in Hout.
    destruct (match Console.include params with Some _ => _ | None => _ end)
      as [messages|e]; simpl in Hout; [|discriminate].
    destruct (filterArray_kept _ _ _ Hout message Hin) as [_ Hkeep].
    unfold Console.createConsoleFilter in Hkeep.
    destruct exclude as [|f exclude]; [inversion Hfilter|].
    destruct (some (Console.matchesFilter engine message) (f :: exclude))
      as [[|]|e] eqn:Hsome; simpl in Hkeep; try discriminate.
    rewrite (some_false _ _ Hsome filter Hfilter) in Hmatch. discriminate.
  - intros requests currentPageUrl params exclude out entry filter
      Hex Hout Hfilter Hmatch Hin.
    unfold Network.filterEntries in Hout. rewrite Hex in Hout.
    destruct (match Network.include params with Some _ => _ | None => _ end)
      as [entries|e]; simpl in Hout; [|discriminate].
    destruct (filterArray_kept _ _ _ Hout entry Hin) as [_ Hkeep].
    unfold Network.createNetworkFilter in Hkeep.
    destruct exclude as [|f exclude]; [inversion Hfilter|].
    destruct (some (Network.matchesFilter engine hostname currentPageUrl entry)
                (f :: exclude)) as [[|]|e] eqn:Hsome; simpl in Hkeep; try discriminate.
    rewrite (some_false _ _ Hsome filter Hfilter) in Hmatch. discriminate.
Qed.

Lemma exclude_overrides_include_witness :
  let keep := {| Console.type := "log"; Console.text := "Keep this log";
                 Console.toString := "[LOG] Keep this log" |} in
  let remove := {| Console.type := "error"; Console.text := "Remove this error";
                   Console.toString := "[ERROR] Remove this error" |} in
  remove ∉ [keep].
Proof.
  intros keep remove.
  apply (proj1 (exclude_overrides_include exampleEngine (fun _ => None))
           [keep; remove]
           {| Console.include := Some [{| Console.types := None;
                                          Console.pattern := None |}];
              Console.exclude := Some [{| Console.types := Some [Console.error];
                                          Console.pattern := None |}];
              Console.first := None; Console.last := None |}
           [{| Console.types := Some [Console.error]; Console.pattern := None |}]
           [keep] remove
           {| Console.types := Some [Console.error]; Console.pattern := None |}).
  - reflexivity.
  - vm_compute. reflexivity.
  - apply list_elem_of_here.
  - vm_compute. reflexivity.
Defined.

(** C4, as the specification states it, fails: a request without a
    response satisfies a clause that has only a status range, and an
    [include] made of that clause keeps it. *)
Lemma status_clause_matches_pending_request :
  let request := {| Network.url := "http://localhost/api"; Network.method := "get" |} in
  let filter := {| Network.statuses := Some [(200, 299)];
                   Network.types := None; Network.pattern := None |} in
  Network.matchesFilter exampleEngine (fun _ => None) "http://localhost/"
    (request, None) filter = Ok true
  /\ Network.filterEntries exampleEngine (fun _ => None) [(request, None)]
       "http://localhost/"
       {| Network.include := Some [filter]; Network.exclude := None;
          Network.first := None; Network.last := None |}
     = Ok [(request, None)].
Proof. vm_compute. split; reflexivity. Qed.

(** C4, amended.  For a request without a response the status ranges of
    a clause are not looked at: the clause is decided by its types and
    its pattern alone.  For a request with a response whose status is
    in none of the ranges the clause is not satisfied. *)
Theorem status_ranges_need_response engine hostname
    (currentPageUrl : string) (request : Network.Request)
    (filter : Network.NetworkFilter) :
  Network.matchesFilter engine hostname currentPageUrl (request, None) filter
  = Network.matchesFilter engine hostname currentPageUrl (request, None)
      {| Network.statuses := None; Network.types := Network.types filter;
         Network.pattern := Network.pattern filter |}
  /\ (forall response range ranges,
        Network.statuses filter = Some (range :: ranges) ->
        (forall min max, (min, max) ∈ range :: ranges ->
           ~ (min <= Network.status response <= max)) ->
        Network.matchesFilter engine hostname currentPageUrl
          (request, Some response) filter = Ok false).
Proof.
  split.
  - unfold Network.matchesFilter. simpl.
    destruct (Network.statuses filter) as [[|range ranges]|]; reflexivity.
  - intros response range ranges Hst Hout.
    unfold Network.matchesFilter. rewrite Hst.
    replace (existsb _ (range :: ranges)) with false; [reflexivity|].
    symmetry. apply not_true_is_false. intros Hex.
    apply existsb_exists in Hex as ([min max] & Hin & Hrange).
    apply (Hout min max); [apply list_elem_of_In; exact Hin | lia].
Qed.

Lemma status_ranges_need_response_witness :
  Network.matchesFilter exampleEngine (fun _ => None) "http://localhost/"
    ({| Network.url := "http://localhost/notfound"; Network.method := "get" |},
     Some {| Network.status := 404; Network.statusText := "Not Found" |})
    {| Network.statuses := Some [(200, 299)];
       Network.types := None; Network.pattern := None |}
  = Ok false.
Proof.
  apply (proj2 (status_ranges_need_response exampleEngine (fun _ => None)
                  "http://localhost/" _ _) _ (200, 299) []); [reflexivity|].
  intros min max Hin. apply list_elem_of_singleton in Hin. injection Hin as -> ->.
  simpl. lia.
Defined.
End Filters.

Section FilterErrors.
Implicit Types (engine : RegExpEngine) (hostname : string -> option string).

Lemma console_matchesFilter_throw engine message filter (e : Error) :
  Console.matchesFilter engine message filter = Throw e ->
  exists pattern,
    truthyString (Console.pattern filter) = Some pattern
    /\ engine pattern = None /\ e = SyntaxError pattern.
Proof.
  unfold Console.matchesFilter.
  destruct (match Console.types filter with Some ((_ :: _) as l) => _ | _ => _ end);
    [discriminate|].
  destruct (truthyString (Console.pattern filter)) as [pattern|]; [|discriminate].
  intros Hthrow. exists pattern. split; [reflexivity|].
  unfold newRegExp in Hthrow. destruct (engine pattern) as [regex|]; simpl in Hthrow.
  - destruct (negb (regex (Console.text message))); discriminate.
  - injection Hthrow as <-. split; reflexivity.
Qed.

Lemma console_matchesFilter_returns engine message filter :
  (forall pattern, truthyString (Console.pattern filter) = Some pattern ->
     engine pattern <> None) ->
  exists b, Console.matchesFilter engine message filter = Ok b.
Proof.
  intros Hok. unfold Console.matchesFilter.
  destruct (match Console.types filter with Some ((_ :: _) as l) => _ | _ => _ end);
    [eauto|].
  destruct (truthyString (Console.pattern filter)) as [pattern|]; [|eauto].
  unfold newRegExp. specialize (Hok pattern eq_refl).
  destruct (engine pattern) as [regex|]; [|contradiction]. simpl.
  destruct (negb (regex (Console.text message))); eauto.
Qed.

Lemma network_matchesFilter_throw engine hostname currentPageUrl entry filter
    (e : Error) :
  Network.matchesFilter engine hostname currentPageUrl entry filter = Throw e ->
  exists pattern,
    truthyString (Network.pattern filter) = Some pattern
    /\ engine pattern = None /\ e = SyntaxError pattern.
Proof.
  unfold Network.matchesFilter. destruct entry as [request response].
  destruct (match Network.statuses filter, response with
            | Some ((_ :: _) as l), Some r => _ | _, _ => _ end); [discriminate|].
  destruct (match Network.types filter with Some ((_ :: _) as l) => _ | _ => _ end);
    [discriminate|].
  destruct (truthyString (Network.pattern filter)) as [pattern|]; [|discriminate].
  intros Hthrow. exists pattern. split; [reflexivity|].
  unfold newRegExp in Hthrow. destruct (engine pattern) as [regex|]; simpl in Hthrow.
  - destruct (negb (regex (Network.url request))); discriminate.
  - injection Hthrow as <-. split; reflexivity.
Qed.

Lemma network_matchesFilter_returns engine hostname currentPageUrl entry filter :
  (forall pattern, truthyString (Network.pattern filter) = Some pattern ->
     engine pattern <> None) ->
  exists b, Network.matchesFilter engine hostname currentPageUrl entry filter = Ok b.
Proof.
  intros Hok. unfold Network.matchesFilter. destruct entry as [request response].
  destruct (match Network.statuses filter, response with
            | Some ((_ :: _) as l), Some r => _ | _, _ => _ end); [eauto|].
  destruct (match Network.types filter with Some ((_ :: _) as l) => _ | _ => _ end);
    [eauto|].
  destruct (truthyString (Network.pattern filter)) as [pattern|]; [|eauto].
  unfold newRegExp. specialize (Hok pattern eq_refl).
  destruct (engine pattern) as [regex|]; [|contradiction]. simpl.
  destruct (negb (regex (Network.url request))); eauto.
Qed.

(** One filtering step, in either tool: what it throws comes from a
    pattern of its filter list, and it returns when they all compile. *)
Lemma console_step_throw engine filters isInclude messages (e : Error) :
  filterArray (Console.createConsoleFilter engine filters isInclude) messages = Throw e ->
  exists pattern,
    pattern ∈ Console.patterns (Some filters)
    /\ engine pattern = None /\ e = SyntaxError pattern.
Proof.
  intros Hthrow. apply filterArray_throw in Hthrow as (message & _ & Hthrow).
  unfold Console.createConsoleFilter in Hthrow.
  destruct filters as [|f filters]; [discriminate|].
  destruct (some _ (f :: filters)) as [b|e'] eqn:Hsome; simpl in Hthrow; [discriminate|].
  injection Hthrow as ->.
  apply some_throw in Hsome as (filter & Hin & Hthrow).
  apply console_matchesFilter_throw in Hthrow as (pattern & Hp & Hbad & ->).
  exists pattern. split; [|split; [exact Hbad | reflexivity]].
  apply list_elem_of_omap. exists filter. split; assumption.
Qed.

Lemma console_step_returns engine filters isInclude messages :
  (forall pattern, pattern ∈ Console.patterns (Some filters) -> engine pattern <> None) ->
  exists out, filterArray (Console.createConsoleFilter engine filters isInclude) messages
              = Ok out.
Proof.
  intros Hok. apply filterArray_returns. intros message _.
  unfold Console.createConsoleFilter. destruct filters as [|f filters]; [eauto|].
  destruct (some_returns (Console.matchesFilter engine message) (f :: filters))
    as [b ->]; [|simpl; eauto].
  intros filter Hin. apply console_matchesFilter_returns. intros pattern Hp.
  apply Hok. apply list_elem_of_omap. exists filter. split; assumption.
Qed.

Lemma network_step_throw engine hostname filters isInclude currentPageUrl requests
    (e : Error) :
  filterArray (Network.createNetworkFilter engine hostname filters isInclude
                 currentPageUrl) requests = Throw e ->
  exists pattern,
    pattern ∈ Network.patterns (Some filters)
    /\ engine pattern = None /\ e = SyntaxError pattern.
Proof.
  intros Hthrow. apply filterArray_throw in Hthrow as (entry & _ & Hthrow).
  unfold Network.createNetworkFilter in Hthrow.
  destruct filters as [|f filters]; [discriminate|].
  destruct (some _ (f :: filters)) as [b|e'] eqn:Hsome; simpl in Hthrow; [discriminate|].
  injection Hthrow as ->.
  apply some_throw in Hsome as (filter & Hin & Hthrow).
  apply network_matchesFilter_throw in Hthrow as (pattern & Hp & Hbad & ->).
  exists pattern. split; [|split; [exact Hbad | reflexivity]].
  apply list_elem_of_omap. exists filter. split; assumption.
Qed.

Lemma network_step_returns engine hostname filters isInclude currentPageUrl requests :
  (forall pattern, pattern ∈ Network.patterns (Some filters) -> engine pattern <> None) ->
  exists out, filterArray (Network.createNetworkFilter engine hostname filters isInclude
                             currentPageUrl) requests = Ok out.
Proof.
  intros Hok. apply filterArray_returns. intros entry _.
  unfold Network.createNetworkFilter. destruct filters as [|f filters]; [eauto|].
  destruct (some_returns (Network.matchesFilter engine hostname currentPageUrl entry)
              (f :: filters)) as [b ->]; [|simpl; eauto].
  intros filter Hin. apply network_matchesFilter_returns. intros pattern Hp.
  apply Hok. apply list_elem_of_omap. exists filter. split; assumption.
Qed.
End FilterErrors.

Section MalformedPatterns.
Implicit Types (engine : RegExpEngine) (hostname : string -> option string).

(** C6, as the specification states it, fails: a pattern is compiled
    only when a record reaches it.  With no record, with a record that
    the types of the clause turn away first, or with an earlier clause
    that already matches, a malformed pattern goes unnoticed and the
    call returns its lines. *)
Lemma malformed_pattern_not_reached :
  let log := {| Console.type := "log"; Console.text := "Hello";
                Console.toString := "[LOG] Hello" |} in
  let bad := {| Console.types := None; Console.pattern := Some "(" |} in
  let badErrors := {| Console.types := Some [Console.error];
                      Console.pattern := Some "(" |} in
  let any := {| Console.types := None; Console.pattern := None |} in
  let only include := {| Console.include := Some include; Console.exclude := None;
                         Console.first := None; Console.last := None |} in
  exampleEngine "(" = None
  /\ Console.handle exampleEngine [] (only [bad]) = Ok []
  /\ Console.handle exampleEngine [log] (only [badErrors]) = Ok []
  /\ Console.handle exampleEngine [log] (only [any; bad]) = Ok ["[LOG] Hello"]
  /\ Network.handle exampleEngine (fun _ => None) (fun s => s) [] "http://localhost/"
       {| Network.include :=
            Some [{| Network.statuses := None; Network.types := None;
                     Network.pattern := Some "(" |}];
          Network.exclude := None; Network.first := None; Network.last := None |}
     = Ok ["No network requests found matching the specified filters"].
Proof. vm_compute. repeat split; reflexivity. Qed.

(** C6, amended.  A call fails only with the [SyntaxError] of a
    malformed pattern that is carried by [include] or [exclude], and
    then returns no line at all; it returns when every pattern
    compiles.  A pattern is compiled when a record reaches it: the call
    fails when the [include] predicate throws on any record, as it does
    on the first record with a first clause that has a malformed pattern
    and no other criterion.  A malformed pattern that no record reaches
    does not make the call fail. *)
Theorem malformed_pattern_fails_when_reached engine hostname
    (toUpperCase : string -> string) :
  (forall consoleMessages params,
      (forall e, Console.handle engine consoleMessages params = Throw e ->
         exists pattern,
           pattern ∈ Console.patterns (Console.include params)
                     ++ Console.patterns (Console.exclude params)
           /\ engine pattern = None /\ e = SyntaxError pattern)
      /\ ((forall pattern,
             pattern ∈ Console.patterns (Console.include params)
                       ++ Console.patterns (Console.exclude params) ->
             engine pattern <> None) ->
          exists lines, Console.handle engine consoleMessages params = Ok lines)
      /\ (forall message rest filter filters pattern,
            consoleMessages = message :: rest ->
            Console.include params = Some (filter :: filters) ->
            Console.types filter = None ->
            truthyString (Console.pattern filter) = Some pattern ->
            engine pattern = None ->
            Console.handle engine consoleMessages params = Throw (SyntaxError pattern))
      /\ (forall message include e,
            message ∈ consoleMessages ->
            Console.include params = Some include ->
            Console.createConsoleFilter engine include true message = Throw e ->
            exists e', Console.handle engine consoleMessages params = Throw e'))
  /\ (forall requests currentPageUrl params,
      (forall e,
         Network.handle engine hostname toUpperCase requests currentPageUrl params
         = Throw e ->
         exists pattern,
           pattern ∈ Network.patterns (Network.include params)
                     ++ Network.patterns (Network.exclude params)
           /\ engine pattern = None /\ e = SyntaxError pattern)
      /\ ((forall pattern,
             pattern ∈ Network.patterns (Network.include params)
                       ++ Network.patterns (Network.exclude params) ->
             engine pattern <> None) ->
          exists lines,
            Network.handle engine hostname toUpperCase requests currentPageUrl params
            = Ok lines)
      /\ (forall entry rest filter filters pattern,
            requests = entry :: rest ->
            Network.include params = Some (filter :: filters) ->
            Network.statuses filter = None ->
            Network.types filter = None ->
            truthyString (Network.pattern filter) = Some pattern ->
            engine pattern = None ->
            Network.handle engine hostname toUpperCase requests currentPageUrl params
            = Throw (SyntaxError pattern))
      /\ (forall entry include e,
            entry ∈ requests ->
            Network.include params = Some include ->
            Network.createNetworkFilter engine hostname include true currentPageUrl entry
            = Throw e ->
            exists e',
              Network.handle engine hostname toUpperCase requests currentPageUrl params
              = Throw e')).
Proof.
  split.
  - intros consoleMessages params. split; [|split; [|split]].
    + intros e. unfold Console.handle, Console.filterMessages.
      destruct (Console.include params) as [include|] eqn:Hinc; cbn [bind].
      * destruct (filterArray _ consoleMessages) as [messages|e'] eqn:Hstep1; cbn [bind].
        -- destruct (Console.exclude params) as [exclude|] eqn:Hexc; [|discriminate].
           destruct (filterArray _ messages) as [out|e''] eqn:Hstep2; [discriminate|].
           cbn [bind]. intros [= ->].
           destruct (console_step_throw _ _ _ _ _ Hstep2) as (pattern & Hin & Hbad).
           exists pattern. split; [apply elem_of_app; right; exact Hin | exact Hbad].
        -- intros [= ->].
           destruct (console_step_throw _ _ _ _ _ Hstep1) as (pattern & Hin & Hbad).
           exists pattern. split; [apply elem_of_app; left; exact Hin | exact Hbad].
      * destruct (Console.exclude params) as [exclude|] eqn:Hexc; [|discriminate].
        destruct (filterArray _ consoleMessages) as [out|e''] eqn:Hstep2; [discriminate|].
        cbn [bind]. intros [= ->].
        destruct (console_step_throw _ _ _ _ _ Hstep2) as (pattern & Hin & Hbad).
        exists pattern. split; [apply elem_of_app; right; exact Hin | exact Hbad].
    + intros Hok. unfold Console.handle, Console.filterMessages.
      assert (Hstep1 : exists messages,
                 match Console.include params with
                 | Some include =>
                     filterArray (Console.createConsoleFilter engine include true)
                       consoleMessages
                 | None => Ok consoleMessages
                 end = Ok messages).
      { destruct (Console.include params) as [include|]; [|eauto].
        apply console_step_returns. intros pattern Hin. apply Hok.
        apply elem_of_app. left. exact Hin. }
      destruct Hstep1 as [messages ->]. cbn [bind].
      destruct (Console.exclude params) as [exclude|]; [|cbn [bind]; eauto].
      destruct (console_step_returns engine exclude false messages) as [out ->];
        [|cbn [bind]; eauto].
      intros pattern Hin. apply Hok. apply elem_of_app. right. exact Hin.
    + intros message rest filter filters pattern -> Hinc Htypes Hp Hbad.
      unfold Console.handle, Console.filterMessages. rewrite Hinc.
      cbn [filterArray Console.createConsoleFilter some].
      unfold Console.matchesFilter at 1. rewrite Htypes, Hp.
      unfold newRegExp. rewrite Hbad. reflexivity.
    + intros message include e Hin Hinc Hthrow.
      unfold Console.handle, Console.filterMessages. rewrite Hinc.
      destruct (filterArray_throws _ _ _ _ Hin Hthrow) as [e' ->]. simpl. eauto.
  - intros requests currentPageUrl params. split; [|split; [|split]].
    + intros e. unfold Network.handle, Network.filterEntries.
      destruct (Network.include params) as [include|] eqn:Hinc; cbn [bind].
      * destruct (filterArray _ requests) as [entries|e'] eqn:Hstep1; cbn [bind].
        -- destruct (Network.exclude params) as [exclude|] eqn:Hexc; [|discriminate].
           destruct (filterArray _ entries) as [out|e''] eqn:Hstep2; [discriminate|].
           cbn [bind]. intros [= ->].
           destruct (network_step_throw _ _ _ _ _ _ _ Hstep2) as (pattern & Hin & Hbad).
           exists pattern. split; [apply elem_of_app; right; exact Hin | exact Hbad].
        -- intros [= ->].
           destruct (network_step_throw _ _ _ _ _ _ _ Hstep1) as (pattern & Hin & Hbad).
           exists pattern. split; [apply elem_of_app; left; exact Hin | exact Hbad].
      * destruct (Network.exclude params) as [exclude|] eqn:Hexc; [|discriminate].
        destruct (filterArray _ requests) as [out|e''] eqn:Hstep2; [discriminate|].
        cbn [bind]. intros [= ->].
        destruct (network_step_throw _ _ _ _ _ _ _ Hstep2) as (pattern & Hin & Hbad).
        exists pattern. split; [apply elem_of_app; right; exact Hin | exact Hbad].
    + intros Hok. unfold Network.handle, Network.filterEntries.
      assert (Hstep1 : exists entries,
                 match Network.include params with
                 | Some include =>
                     filterArray (Network.createNetworkFilter engine hostname include
                                    true currentPageUrl) requests
                 | None => Ok requests
                 end = Ok entries).
      { destruct (Network.include params) as [include|]; [|eauto].
        apply network_step_returns. intros pattern Hin. apply Hok.
        apply elem_of_app. left. exact Hin. }
      destruct Hstep1 as [entries ->]. cbn [bind].
      destruct (Network.exclude params) as [exclude|]; [|cbn [bind]; eauto].
      destruct (network_step_returns engine hostname exclude false currentPageUrl entries)
        as [out ->]; [|cbn [bind]; eauto].
      intros pattern Hin. apply Hok. apply elem_of_app. right. exact Hin.
    + intros entry rest filter filters pattern -> Hinc Hst Htypes Hp Hbad.
      unfold Network.handle, Network.filterEntries. rewrite Hinc.
      cbn [filterArray Network.createNetworkFilter some].
      unfold Network.matchesFilter at 1. destruct entry as [request response].
      rewrite Hst, Htypes, Hp.
      unfold newRegExp. rewrite Hbad. reflexivity.
    + intros entry include e Hin Hinc Hthrow.
      unfold Network.handle, Network.filterEntries. rewrite Hinc.
      destruct (filterArray_throws _ _ _ _ Hin Hthrow) as [e' ->]. simpl. eauto.
Qed.

Lemma malformed_pattern_fails_when_reached_witness :
  Console.handle exampleEngine
    [{| Console.type := "log"; Console.text := "Hello";
        Console.toString := "[LOG] Hello" |}]
    {| Console.include := Some [{| Console.types := None;
                                   Console.pattern := Some "(" |}];
       Console.exclude := None; Console.first := None; Console.last := None |}
  = Throw (SyntaxError "(").
Proof.
  eapply (proj1 (proj2 (proj2 (proj1
            (malformed_pattern_fails_when_reached exampleEngine (fun _ => None)
               (fun s => s)) _ _)))); reflexivity.
Defined.
End MalformedPatterns.

Section EmptyFilterLists.
Implicit Types (engine : RegExpEngine) (hostname : string -> option string).

(** C9. With an empty clause list the predicate returns [isInclude]
    itself, in both tools.  So [include: []] lets every record through,
    as if [include] were absent, and [exclude: []] drops every record:
    nothing is left after filtering. *)
Theorem empty_filter_list_returns_flag engine hostname :
  (forall isInclude message,
      Console.createConsoleFilter engine [] isInclude message = Ok isInclude)
  /\ (forall isInclude currentPageUrl entry,
      Network.createNetworkFilter engine hostname [] isInclude currentPageUrl entry
      = Ok isInclude)
  /\ (forall consoleMessages exclude first last,
      Console.filterMessages engine consoleMessages
        {| Console.include := Some []; Console.exclude := exclude;
           Console.first := first; Console.last := last |}
      = Console.filterMessages engine consoleMessages
          {| Console.include := None; Console.exclude := exclude;
             Console.first := first; Console.last := last |})
  /\ (forall consoleMessages first last,
      Console.filterMessages engine consoleMessages
        {| Console.include := None; Console.exclude := Some [];
           Console.first := first; Console.last := last |} = Ok []
      /\ Console.handle engine consoleMessages
           {| Console.include := None; Console.exclude := Some [];
              Console.first := first; Console.last := last |} = Ok [])
  /\ (forall requests currentPageUrl exclude first last,
      Network.filterEntries engine hostname requests currentPageUrl
        {| Network.include := Some []; Network.exclude := exclude;
           Network.first := first; Network.last := last |}
      = Network.filterEntries engine hostname requests currentPageUrl
          {| Network.include := None; Network.exclude := exclude;
             Network.first := first; Network.last := last |})
  /\ (forall requests currentPageUrl first last,
      Network.filterEntries engine hostname requests currentPageUrl
        {| Network.include := None; Network.exclude := Some [];
           Network.first := first; Network.last := last |} = Ok []
      /\ forall toUpperCase,
          Network.handle engine hostname toUpperCase requests currentPageUrl
            {| Network.include := None; Network.exclude := Some [];
               Network.first := first; Network.last := last |}
          = Ok ["No network requests found matching the specified filters"]).
Proof.
  assert (Hconsole : forall consoleMessages first last,
             Console.filterMessages engine consoleMessages
               {| Console.include := None; Console.exclude := Some [];
                  Console.first := first; Console.last := last |} = Ok []).
  { intros. unfold Console.filterMessages.
    cbn [Console.include Console.exclude bind].
    apply (filterArray_const _ _ false). reflexivity. }
  split; [reflexivity|]. split; [reflexivity|]. split; [|split; [|split]].
  - intros. unfold Console.filterMessages. cbn [Console.include Console.exclude].
    rewrite (filterArray_const _ _ true) by reflexivity. reflexivity.
  - intros. split; [apply Hconsole|].
    unfold Console.handle. rewrite Hconsole. cbn [bind map].
    rewrite applyLimits_nil; [reflexivity | simpl; discriminate].
  - intros. unfold Network.filterEntries. cbn [Network.include Network.exclude].
    rewrite (filterArray_const _ _ true) by reflexivity. reflexivity.
  - intros requests currentPageUrl first lastCount.
    assert (Hnetwork : Network.filterEntries engine hostname requests currentPageUrl
               {| Network.include := None; Network.exclude := Some [];
                  Network.first := first; Network.last := lastCount |} = Ok []).
    { unfold Network.filterEntries. cbn [Network.include Network.exclude bind].
      apply (filterArray_const _ _ false). reflexivity. }
    split; [exact Hnetwork|]. intros toUpperCase.
    unfold Network.handle. rewrite Hnetwork. cbn [bind map].
    rewrite applyLimits_nil; [reflexivity | simpl; discriminate].
Qed.

(** C10. [getConsoleMessageType] is a function of the tag alone:
    ['error'] gives [error], ['warning'] gives [warning], ['log'] and
    ['info'] give [info], and every other tag gives [verbose]. *)
Theorem console_message_type_of_tag (message : Console.ConsoleMessage) :
  (Console.type message = "error" -> Console.getConsoleMessageType message = Console.error)
  /\ (Console.type message = "warning" ->
        Console.getConsoleMessageType message = Console.warning)
  /\ (Console.type message = "log" -> Console.getConsoleMessageType message = Console.info)
  /\ (Console.type message = "info" -> Console.getConsoleMessageType message = Console.info)
  /\ (Console.type message ∉ ["error"; "warning"; "log"; "info"] ->
        Console.getConsoleMessageType message = Console.verbose)
  /\ (forall other, Console.type other = Console.type message ->
        Console.getConsoleMessageType other = Console.getConsoleMessageType message).
Proof.
  unfold Console.getConsoleMessageType.
  repeat split; try (intros ->; reflexivity).
  - intros Hother.
    destruct (String.eqb_spec (Console.type message) "error") as [He|_];
      [exfalso; apply Hother; rewrite He; apply list_elem_of_In; simpl; auto|].
    destruct (String.eqb_spec (Console.type message) "warning") as [He|_];
      [exfalso; apply Hother; rewrite He; apply list_elem_of_In; simpl; auto|].
    destruct (String.eqb_spec (Console.type message) "log") as [He|_];
      [exfalso; apply Hother; rewrite He; apply list_elem_of_In; simpl; auto|].
    destruct (String.eqb_spec (Console.type message) "info") as [He|_];
      [exfalso; apply Hother; rewrite He; apply list_elem_of_In; simpl; auto|].
    reflexivity.
  - intros other ->. reflexivity.
Qed.

Lemma console_message_type_of_tag_witness :
  Console.getConsoleMessageType
    {| Console.type := "debug"; Console.text := "x"; Console.toString := "[DEBUG] x" |}
  = Console.verbose.
Proof.
  apply (proj1 (proj2 (proj2 (proj2 (proj2 (console_message_type_of_tag
           {| Console.type := "debug"; Console.text := "x";
              Console.toString := "[DEBUG] x" |})))))).
  simpl. intros Hin. repeat (apply elem_of_cons in Hin as [Hin|Hin]; [discriminate|]).
  inversion Hin.
Defined.
End EmptyFilterLists.

(** ** The completion barrier *)

Section CompletionBarrier.
Import Barrier.
Context {R E : Type}.
Implicit Types (s : State R E) (ev : Event R E) (r : Resource).

Lemma release_position r s : position (release r s) = position s.
Proof. unfold release. destruct (decide (r ∈ active s)); reflexivity. Qed.

Lemma release_active r s : active (release r s) = active s ∖ {[r]}.
Proof.
  unfold release. destruct (decide (r ∈ active s)) as [Hin|Hout]; simpl; [reflexivity|].
  apply set_eq. intros r'. rewrite elem_of_difference, elem_of_singleton.
  split; [intros Hr'; split; [exact Hr' | intros ->; contradiction] | tauto].
Qed.

Lemma release_accounted r s : accounted s -> accounted (release r s).
Proof.
  intros [Hnodup Hiff]. unfold release.
  destruct (decide (r ∈ active s)) as [Hin|Hout]; [|split; assumption].
  split; simpl.
  - apply NoDup_cons. split; [|exact Hnodup]. rewrite Hiff. tauto.
  - intros r'. rewrite elem_of_cons, Hiff, elem_of_difference, elem_of_singleton.
    destruct (decide (r' = r)) as [->|Hne]; tauto.
Qed.

Lemma dispose_position s : position (dispose s) = position s.
Proof. unfold dispose. rewrite !release_position. reflexivity. Qed.

Lemma dispose_accounted s : accounted s -> accounted (dispose s).
Proof. intros H. unfold dispose. do 4 apply release_accounted. exact H. Qed.

Lemma dispose_active s : active (dispose s) = ∅.
Proof.
  unfold dispose. rewrite !release_active.
  apply set_eq. intros r.
  rewrite !elem_of_difference, !elem_of_singleton, elem_of_empty.
  destruct r; tauto.
Qed.

Lemma accounted_ext s s' :
  active s' = active s -> released s' = released s -> accounted s -> accounted s'.
Proof. unfold accounted. intros -> ->. trivial. Qed.

Lemma waitCallback_accounted s : accounted s -> accounted (waitCallback s).
Proof. apply accounted_ext; reflexivity. Qed.

Lemma waitCallback_exited s : exited (waitCallback s) <-> exited s.
Proof. unfold exited. simpl. destruct (position s); tauto. Qed.

Lemma waitCallback_clean s : cleanOnExit s -> cleanOnExit (waitCallback s).
Proof. unfold cleanOnExit. rewrite waitCallback_exited. trivial. Qed.

Lemma release_clean r s : cleanOnExit s -> cleanOnExit (release r s).
Proof.
  unfold cleanOnExit, exited. rewrite release_position, release_active.
  intros Hclean Hex. rewrite (Hclean Hex).
  apply subseteq_empty_difference_L, empty_subseteq.
Qed.

Lemma dispose_clean s : cleanOnExit (dispose s).
Proof. intros _. apply dispose_active. Qed.

Lemma step_accounted s ev : accounted s -> accounted (step s ev).
Proof.
  intros Hacc. destruct ev; simpl.
  - destruct (decide (requestListener ∈ active s)); [|exact Hacc].
    revert Hacc. apply accounted_ext; reflexivity.
  - destruct (decide (requestFinishedListener ∈ active s)); [|exact Hacc].
    unfold onRequestFinished. simpl.
    destruct (decide (requests s ∖ {[request]} = ∅));
      revert Hacc; apply accounted_ext; reflexivity.
  - destruct (decide (frameNavigateListener ∈ active s)); [|exact Hacc].
    unfold onFrameNavigate. destruct hasParentFrame; [exact Hacc|].
    eapply accounted_ext; [reflexivity | reflexivity |].
    apply release_accounted, dispose_accounted.
    revert Hacc. apply accounted_ext; reflexivity.
  - destruct (decide (timeout ∈ active s)); [|exact Hacc].
    apply waitCallback_accounted, dispose_accounted, release_accounted, Hacc.
  - destruct (loadStatePending s); [|exact Hacc].
    revert Hacc. apply accounted_ext; reflexivity.
  - destruct (position s); try exact Hacc.
    unfold afterCallback.
    destruct (bool_decide (requests s = ∅) && negb (frameNavigated s)); simpl;
      destruct (waitBarrier s); revert Hacc; apply accounted_ext; reflexivity.
  - destruct (position s); try exact Hacc.
    eapply accounted_ext; [reflexivity | reflexivity | apply dispose_accounted, Hacc].
  - destruct (position s); try exact Hacc.
    eapply accounted_ext; [reflexivity | reflexivity | apply dispose_accounted, Hacc].
  - destruct (position s); try exact Hacc.
    eapply accounted_ext; [reflexivity | reflexivity | apply dispose_accounted, Hacc].
Qed.

Lemma step_clean s ev : cleanOnExit s -> cleanOnExit (step s ev).
Proof.
  intros Hclean. destruct ev; simpl.
  - destruct (decide (requestListener ∈ active s)); exact Hclean.
  - destruct (decide (requestFinishedListener ∈ active s)); [|exact Hclean].
    unfold onRequestFinished. simpl.
    destruct (decide (requests s ∖ {[request]} = ∅)); [|exact Hclean].
    apply waitCallback_clean. exact Hclean.
  - destruct (decide (frameNavigateListener ∈ active s)); [|exact Hclean].
    unfold onFrameNavigate. destruct hasParentFrame; [exact Hclean|].
    intros _. simpl. rewrite release_active, dispose_active.
    apply subseteq_empty_difference_L, empty_subseteq.
  - destruct (decide (timeout ∈ active s)); [|exact Hclean].
    apply waitCallback_clean, dispose_clean.
  - destruct (loadStatePending s); [|exact Hclean].
    apply waitCallback_clean. exact Hclean.
  - destruct (position s) eqn:Hpos; try exact Hclean.
    unfold afterCallback, cleanOnExit, exited.
    destruct (bool_decide (requests s = ∅) && negb (frameNavigated s)); simpl;
      destruct (waitBarrier s); simpl; tauto.
  - destruct (position s); try exact Hclean. intros _. simpl. apply dispose_active.
  - destruct (position s); try exact Hclean. intros _. simpl. apply dispose_active.
  - destruct (position s); try exact Hclean. intros _. simpl. apply dispose_active.
Qed.

Lemma start_accounted : accounted (@start R E).
Proof.
  split; [apply NoDup_nil_2|].
  intros r. cbn [start released active]. split; [intros Hr; inversion Hr|].
  intros Hr. exfalso. apply Hr, elem_of_list_to_set, list_elem_of_In.
  destruct r; simpl; auto.
Qed.

Lemma run_invariant (events : list (Event R E)) :
  accounted (run events) /\ cleanOnExit (run events).
Proof.
  unfold run.
  assert (Hgen : forall s, accounted s /\ cleanOnExit s ->
            accounted (fold_left step events s) /\ cleanOnExit (fold_left step events s)).
  { induction events as [|ev events IH]; intros s [Hacc Hclean]; simpl; [tauto|].
    apply IH. split; [apply step_accounted | apply step_clean]; assumption. }
  apply Hgen. split; [apply start_accounted | intros []].
Qed.

Lemma released_all s : accounted s -> active s = ∅ -> released s ≡ₚ allResources.
Proof.
  intros [Hnodup Hiff] Hempty. apply NoDup_Permutation; [exact Hnodup | |].
  - apply NoDup_ListNoDup. unfold allResources.
    repeat constructor; simpl; intuition discriminate.
  - intros r. rewrite Hiff, Hempty. split; [intros _ | intros _; apply not_elem_of_empty].
    apply list_elem_of_In. destruct r; simpl; auto.
Qed.

Lemma waitCallback_position_exited s :
  exited s -> position (waitCallback s) = position s.
Proof. unfold exited. simpl. destruct (position s); tauto. Qed.

(** Once the function has returned or thrown, nothing moves it. *)
Lemma step_exited_position s ev : exited s -> position (step s ev) = position s.
Proof.
  intros Hex. destruct ev; simpl.
  - destruct (decide (requestListener ∈ active s)); reflexivity.
  - destruct (decide (requestFinishedListener ∈ active s)); [|reflexivity].
    unfold onRequestFinished. simpl.
    destruct (decide (requests s ∖ {[request]} = ∅)); [|reflexivity].
    apply (waitCallback_position_exited (setRequests _ s)). exact Hex.
  - destruct (decide (frameNavigateListener ∈ active s)); [|reflexivity].
    unfold onFrameNavigate. destruct hasParentFrame; [reflexivity|].
    simpl. rewrite release_position, dispose_position. reflexivity.
  - destruct (decide (timeout ∈ active s)); [|reflexivity].
    unfold onTimeout. rewrite waitCallback_position_exited;
      unfold exited; rewrite dispose_position, release_position; [reflexivity | exact Hex].
  - destruct (loadStatePending s); [|reflexivity].
    unfold exited in Hex. simpl. destruct (position s); tauto.
  - unfold exited in Hex. destruct (position s) eqn:Hpos; try tauto; exact Hpos.
  - unfold exited in Hex. destruct (position s) eqn:Hpos; try tauto; exact Hpos.
  - unfold exited in Hex. destruct (position s) eqn:Hpos; try tauto; exact Hpos.
  - unfold exited in Hex. destruct (position s) eqn:Hpos; try tauto; exact Hpos.
Qed.

(** C8. On every exit of [waitForCompletion], by return or by throw,
    and after any sequence of events, the three listeners are off the
    page and the timer is not pending, and each of them was given back
    once: when [dispose] runs a second time, as it does in [finally]
    after [onTimeout] or after a navigation, it finds nothing to give
    back.  When the action throws, the function throws the same error,
    after the cleanup; an exit is final. *)
Theorem subscriptions_released_on_exit (events : list (Event R E)) :
  let s := run events in
  (exited s -> active s = ∅ /\ released s ≡ₚ allResources)
  /\ (forall error, position s = awaitCallback ->
        let s' := step s (callbackRejects error) in
        position s' = thrown error
        /\ active s' = ∅ /\ released s' ≡ₚ allResources)
  /\ (forall ev, exited s -> position (step s ev) = position s).
Proof.
  intros s. destruct (run_invariant events) as [Hacc Hclean]. fold s in Hacc, Hclean.
  split; [|split].
  - intros Hex. split; [exact (Hclean Hex)|].
    apply released_all; [exact Hacc | exact (Hclean Hex)].
  - intros error Hpos. simpl. rewrite Hpos. simpl.
    split; [reflexivity|]. split; [apply dispose_active|].
    apply (released_all (setPosition (thrown error) (dispose s))).
    + eapply accounted_ext; [reflexivity | reflexivity | apply dispose_accounted, Hacc].
    + apply dispose_active.
  - intros ev Hex. apply step_exited_position. exact Hex.
Qed.
End CompletionBarrier.

(** The exit paths: a plain return, a return after the ceiling timeout
    with a request still in flight, a return after a navigation, and an
    action that throws. *)
Example exit_by_return :
  Barrier.position
    (Barrier.run (E := string) [Barrier.callbackResolves 7%nat; Barrier.waitForTimeoutResolves])
  = Barrier.returned 7%nat.
Proof. vm_compute. reflexivity. Qed.

Example exit_after_timeout :
  Barrier.position
    (Barrier.run (E := string)
       [Barrier.emitRequest 1%nat; Barrier.callbackResolves 7%nat;
        Barrier.timeoutElapses; Barrier.waitForTimeoutResolves])
  = Barrier.returned 7%nat.
Proof. vm_compute. reflexivity. Qed.

Example exit_after_navigation :
  Barrier.position
    (Barrier.run (E := string)
       [Barrier.emitRequest 1%nat; Barrier.emitFrameNavigated false;
        Barrier.callbackResolves 7%nat; Barrier.loadStateReached;
        Barrier.waitForTimeoutResolves])
  = Barrier.returned 7%nat.
Proof. vm_compute. reflexivity. Qed.

Example exit_by_throw :
  Barrier.position
    (Barrier.run (R := nat) [Barrier.emitRequest 1%nat; Barrier.callbackRejects "boom"])
  = Barrier.thrown "boom".
Proof. vm_compute. reflexivity. Qed.

Lemma subscriptions_released_on_exit_witness :
  let s := Barrier.run (R := nat) (E := string)
             [Barrier.emitRequest 1%nat; Barrier.callbackResolves 7%nat;
              Barrier.timeoutElapses; Barrier.waitForTimeoutResolves] in
  Barrier.active s = ∅ /\ Barrier.released s ≡ₚ Barrier.allResources.
Proof.
  intros s. apply (proj1 (subscriptions_released_on_exit _)).
  vm_compute. exact I.
Defined.

(** ** The examples of the specification, run on the embedding *)

Example status_filter_example :
  Network.handle exampleEngine (fun _ => None) (fun s => s)
    [({| Network.url := "/a"; Network.method := "GET" |},
      Some {| Network.status := 200; Network.statusText := "OK" |});
     ({| Network.url := "/b"; Network.method := "GET" |},
      Some {| Network.status := 404; Network.statusText := "Not Found" |})]
    "http://localhost/"
    {| Network.include := Some [{| Network.statuses := Some [(200, 299)];
                                   Network.types := None; Network.pattern := None |}];
       Network.exclude := None; Network.first := None; Network.last := None |}
  = Ok ["[GET] /a => [200] OK"].
Proof. vm_compute. reflexivity. Qed.

Example proportional_split_example :
  Utils.stringArrayApplyLimits
    ["aaaaaaaaaaaaaaaaaaaaaaaaaaaaaaaaaaaaaaaaaaaaaaaaaa";
     "bbbbbbbbbbbbbbbbbbbbbbbbbbbbbbbbbbbbbbbbbbbbbbbbbb";
     "cccccccccccccccccccccccccccccccccccccccccccccccccc";
     "dddddddddddddddddddddddddddddddddddddddddddddddddd";
     "eeeeeeeeeeeeeeeeeeeeeeeeeeeeeeeeeeeeeeeeeeeeeeeeee"]
    {| Utils.maxTotalLength := 120; Utils.countFirst := Some 2; Utils.countLast := Some 2 |}
  = ["aaaaaaaaaaaaaaaaaaaaaaaaaaaaaaaaaaaaaaaaaaaaaaaaaa";
     "[3 messages skipped]";
     "eeeeeeeeeeeeeeeeeeeeeeeeeeeeeeeeeeeeeeeeeeeeeeeeee"].
Proof. vm_compute. reflexivity. Qed.

Example first_two_example :
  Utils.stringArrayApplyLimits ["/r1"; "/r2"; "/r3"; "/r4"; "/r5"]
    {| Utils.maxTotalLength := 2000; Utils.countFirst := Some 2; Utils.countLast := None |}
  = ["/r1"; "/r2"].
Proof. vm_compute. reflexivity. Qed.

(** ** Further properties of the window trimmer *)

Section TrimmerWindows.
Import Utils.
Implicit Types strings : list string.
Local Arguments stringArrayTotalLength : simpl never.

Lemma totalLength_take_le strings (k : nat) :
  stringArrayTotalLength (take k strings) <= stringArrayTotalLength strings.
Proof.
  rewrite <- (take_drop k strings) at 2. rewrite totalLength_app.
  pose proof (totalLength_nonneg (drop k strings)). lia.
Qed.

Lemma trimToLength_start_all strings (m : Z) :
  stringArrayTotalLength strings <= m ->
  stringArrayTrimToLength strings (Some m) false = strings.
Proof.
  intros Hfit. destruct (trimToLength_start strings m) as (k & -> & Hk & _ & Hnext).
  destruct (decide (k < length strings)%nat) as [Hlt|Hge].
  - specialize (Hnext Hlt). pose proof (totalLength_take_le strings (S k)). lia.
  - apply take_ge. lia.
Qed.

Lemma trimToLength_end_all strings (m : Z) :
  stringArrayTotalLength strings <= m ->
  stringArrayTrimToLength strings (Some m) true = strings.
Proof.
  intros Hfit. unfold stringArrayTrimToLength.
  rewrite trimLoopEnd_fits by (rewrite ?firstn_all; lia).
  rewrite slice_from. destruct (length strings); apply drop_0.
Qed.

(** X1. With only [first] given and a budget that is not negative, the
    lines returned before the marker are the longest leading run of the
    selected slice that fits the budget; the marker, which comes last,
    is there exactly when a line of the slice was cut, and counts the
    lines cut. *)
Theorem first_only_keeps_fitting_prefix strings (budget F : Z) :
  0 <= budget -> F <> 0 ->
  let selection := JS.slice strings 0 (Some F) in
  exists k : nat,
    (k <= length selection)%nat
    /\ stringArrayTotalLength (take k selection) <= budget
    /\ ((k < length selection)%nat ->
          budget < stringArrayTotalLength (take (S k) selection))
    /\ stringArrayApplyLimits strings
         {| maxTotalLength := budget; countFirst := Some F; countLast := None |}
       = if decide (k = length selection) then selection
         else take k selection
              ++ [trimmedMarker (Z.of_nat (length selection) - Z.of_nat k)].
Proof.
  intros Hb HF selection.
  destruct (trimToLength_start selection budget) as (k & Htrim & Hk & Hfit & Hnext).
  exists k. repeat split; [exact Hk | exact (Hfit Hb) | exact Hnext |].
  unfold stringArrayApplyLimits. cbn [maxTotalLength countFirst countLast].
  rewrite (truthy_nonzero F HF). cbn [JS.truthy]. fold selection.
  rewrite Htrim, length_take, Nat.min_l by exact Hk.
  destruct (decide (k = length selection)) as [->|Hne].
  - rewrite Z.sub_diag, firstn_all. reflexivity.
  - destruct (Z.gtb_spec (Z.of_nat (length selection) - Z.of_nat k) 0); [reflexivity | lia].
Qed.

Lemma first_only_keeps_fitting_prefix_witness :
  exists k : nat,
    stringArrayApplyLimits ["aaa"; "bbb"; "ccc"; "ddd"]
      {| maxTotalLength := 7; countFirst := Some 3; countLast := None |}
    = if decide (k = 3%nat) then ["aaa"; "bbb"; "ccc"]
      else take k ["aaa"; "bbb"; "ccc"] ++ [trimmedMarker (3 - Z.of_nat k)].
Proof.
  destruct (first_only_keeps_fitting_prefix ["aaa"; "bbb"; "ccc"; "ddd"] 7 3
              ltac:(lia) ltac:(lia)) as (k & _ & _ & _ & Hresult).
  exists k. exact Hresult.
Defined.

(** X2. With [first] absent, the selection is the whole input or, with
    [last] given, its last lines.  When the last line of the selection
    fits the budget, the lines returned after the marker are the longest
    trailing run of the selection that fits; the marker, which comes
    first, is there exactly when a line was cut, and counts the lines
    cut. *)
Theorem last_preferred_keeps_fitting_suffix strings (budget : Z) (last : option Z) :
  let selection := match JS.truthy last with
                   | Some L => JS.slice strings (- L) None
                   | None => strings
                   end in
  0 <= budget ->
  JS.strLength (List.last selection "") <= budget ->
  exists r : nat,
    (r <= length selection)%nat
    /\ stringArrayTotalLength (drop r selection) <= budget
    /\ (forall r', r = S r' -> budget < stringArrayTotalLength (drop r' selection))
    /\ stringArrayApplyLimits strings
         {| maxTotalLength := budget; countFirst := None; countLast := last |}
       = match r with
         | O => selection
         | S _ => trimmedMarker (Z.of_nat r) :: drop r selection
         end.
Proof.
  intros selection Hb Hlast.
  destruct (trimToLength_end_fits selection budget Hlast) as (r & Htrim & Hr & Hfit & Hnext).
  exists r. repeat split; [exact Hr | exact (Hfit Hb) | exact Hnext |].
  assert (Hshape :
    (let trimmed := stringArrayTrimToLength selection (Some budget) true in
     let skipped := Z.of_nat (length selection) - Z.of_nat (length trimmed) in
     if skipped >? 0 then trimmedMarker skipped :: trimmed else trimmed)
    = match r with
      | O => selection
      | S _ => trimmedMarker (Z.of_nat r) :: drop r selection
      end).
  { cbv zeta. rewrite Htrim, length_drop. destruct r as [|r'].
    - rewrite drop_0, Nat.sub_0_r, Z.sub_diag. reflexivity.
    - destruct (Z.gtb_spec (Z.of_nat (length selection)
                 - Z.of_nat (length selection - S r')) 0) as [_|Hle]; [|lia].
      do 2 f_equal. lia. }
  unfold stringArrayApplyLimits. cbn [maxTotalLength countFirst countLast JS.truthy].
  unfold selection in *. destruct (JS.truthy last) as [L|]; exact Hshape.
Qed.

Lemma last_preferred_keeps_fitting_suffix_witness :
  exists r : nat,
    stringArrayApplyLimits ["aaa"; "bbb"; "ccc"; "ddd"]
      {| maxTotalLength := 7; countFirst := None; countLast := Some 3 |}
    = match r with
      | O => ["bbb"; "ccc"; "ddd"]
      | S _ => trimmedMarker (Z.of_nat r) :: drop r ["bbb"; "ccc"; "ddd"]
      end.
Proof.
  destruct (last_preferred_keeps_fitting_suffix ["aaa"; "bbb"; "ccc"; "ddd"] 7 (Some 3)
              ltac:(lia) ltac:(vm_compute; discriminate)) as (r & _ & _ & _ & Hresult).
  exists r. exact Hresult.
Defined.

(** X3. With [first] absent, a selection whose last line is longer than
    the budget is returned whole, with no marker: the backward loop
    stops before it moves [index] away from [0]. *)
Theorem last_preferred_overflow_returns_selection strings (budget : Z) (last : option Z) :
  let selection := match JS.truthy last with
                   | Some L => JS.slice strings (- L) None
                   | None => strings
                   end in
  selection <> [] ->
  budget < JS.strLength (List.last selection "") ->
  stringArrayApplyLimits strings
    {| maxTotalLength := budget; countFirst := None; countLast := last |} = selection.
Proof.
  intros selection Hne Hlast.
  assert (Hshape :
    (let trimmed := stringArrayTrimToLength selection (Some budget) true in
     let skipped := Z.of_nat (length selection) - Z.of_nat (length trimmed) in
     if skipped >? 0 then trimmedMarker skipped :: trimmed else trimmed) = selection).
  { cbv zeta. rewrite trimToLength_end_overflow by assumption.
    rewrite Z.sub_diag. reflexivity. }
  unfold stringArrayApplyLimits. cbn [maxTotalLength countFirst countLast JS.truthy].
  unfold selection in *. destruct (JS.truthy last) as [L|]; exact Hshape.
Qed.

Lemma last_preferred_overflow_returns_selection_witness :
  stringArrayApplyLimits ["aaa"; "bbb"; "ccccccccc"]
    {| maxTotalLength := 7; countFirst := None; countLast := Some 2 |}
  = ["bbb"; "ccccccccc"].
Proof.
  apply (last_preferred_overflow_returns_selection ["aaa"; "bbb"; "ccccccccc"] 7 (Some 2));
    vm_compute; [discriminate | reflexivity].
Defined.

(** X4. A budget that holds the whole slice cuts nothing: [first = F]
    gives exactly the first [F] lines and [last = L] exactly the last
    [L] lines, all the lines when the count is larger than their number,
    and there is no marker. *)
Theorem generous_budget_returns_slice strings (budget : Z) :
  (forall F, 0 < F ->
     stringArrayTotalLength (take (Z.to_nat F) strings) <= budget ->
     stringArrayApplyLimits strings
       {| maxTotalLength := budget; countFirst := Some F; countLast := None |}
     = take (Z.to_nat F) strings)
  /\ (forall L, 0 < L ->
     stringArrayTotalLength (drop (length strings - Z.to_nat L) strings) <= budget ->
     stringArrayApplyLimits strings
       {| maxTotalLength := budget; countFirst := None; countLast := Some L |}
     = drop (length strings - Z.to_nat L) strings).
Proof.
  split.
  - intros F HF Hfit. unfold stringArrayApplyLimits.
    cbn [maxTotalLength countFirst countLast]. rewrite (truthy_nonzero F) by lia.
    cbn [JS.truthy]. rewrite (slice_first strings F HF).
    rewrite trimToLength_start_all by exact Hfit. rewrite Z.sub_diag. reflexivity.
  - intros L HL Hfit. unfold stringArrayApplyLimits.
    cbn [maxTotalLength countFirst countLast]. rewrite (truthy_nonzero L) by lia.
    cbn [JS.truthy]. rewrite (slice_last strings L HL).
    rewrite trimToLength_end_all by exact Hfit. rewrite Z.sub_diag. reflexivity.
Qed.

Lemma generous_budget_returns_slice_witness :
  stringArrayApplyLimits ["/r1"; "/r2"; "/r3"]
    {| maxTotalLength := 2000; countFirst := Some 5; countLast := None |}
  = ["/r1"; "/r2"; "/r3"].
Proof.
  apply (proj1 (generous_budget_returns_slice ["/r1"; "/r2"; "/r3"] 2000) 5);
    [lia | vm_compute; discriminate].
Defined.

(** X5. With both counts given and the two slices together within the
    budget, the result is the first slice followed by the last slice,
    with no marker, also when the two overlap: with both counts at least
    the number of lines every line comes twice. *)
Theorem both_within_budget_concatenates strings (budget F L : Z) :
  0 < F -> 0 < L ->
  stringArrayTotalLength (take (Z.to_nat F) strings)
  + stringArrayTotalLength (drop (length strings - Z.to_nat L) strings) <= budget ->
  stringArrayApplyLimits strings
    {| maxTotalLength := budget; countFirst := Some F; countLast := Some L |}
  = take (Z.to_nat F) strings ++ drop (length strings - Z.to_nat L) strings
  /\ (Z.of_nat (length strings) <= F -> Z.of_nat (length strings) <= L ->
      stringArrayApplyLimits strings
        {| maxTotalLength := budget; countFirst := Some F; countLast := Some L |}
      = strings ++ strings).
Proof.
  intros HF HL Hfit.
  assert (Hresult : stringArrayApplyLimits strings
            {| maxTotalLength := budget; countFirst := Some F; countLast := Some L |}
          = take (Z.to_nat F) strings ++ drop (length strings - Z.to_nat L) strings).
  { unfold stringArrayApplyLimits. cbn [maxTotalLength countFirst countLast].
    rewrite (truthy_nonzero F), (truthy_nonzero L) by lia.
    rewrite (slice_first strings F HF), (slice_last strings L HL).
    destruct (Z.gtb_spec
                (stringArrayTotalLength (take (Z.to_nat F) strings)
                 + stringArrayTotalLength (drop (length strings - Z.to_nat L) strings))
                budget); [lia | reflexivity]. }
  split; [exact Hresult|].
  intros HlenF HlenL. rewrite Hresult.
  rewrite take_ge by lia.
  replace (length strings - Z.to_nat L)%nat with 0%nat by lia.
  rewrite drop_0. reflexivity.
Qed.

Lemma both_within_budget_concatenates_witness :
  stringArrayApplyLimits ["aaa"; "bbb"]
    {| maxTotalLength := 2000; countFirst := Some 2; countLast := Some 2 |}
  = ["aaa"; "bbb"] ++ ["aaa"; "bbb"].
Proof.
  apply (both_within_budget_concatenates ["aaa"; "bbb"] 2000 2 2);
    [lia | lia | vm_compute; discriminate | simpl; lia | simpl; lia].
Defined.

Lemma slice_subset {A : Type} (l : list A) (start : Z) (end_ : option Z) (x : A) :
  x ∈ JS.slice l start end_ -> x ∈ l.
Proof.
  unfold JS.slice. intros Hx.
  apply (subseteq_drop (Z.to_nat (JS.relativeIndex (Z.of_nat (length l)) start)) l).
  eapply subseteq_take. exact Hx.
Qed.

(** X6. Whatever the counts and the budget, a line that is returned is a
    line of the input or a marker: no line is cut short or made up. *)
Theorem returned_lines_come_from_input strings
    (options : StringArrayApplyLimitsOptions) (line : string) :
  line ∈ stringArrayApplyLimits strings options ->
  line ∈ strings \/ exists n, isMarker line n.
Proof.
  unfold stringArrayApplyLimits.
  destruct (JS.truthy (countFirst options)) as [F|],
           (JS.truthy (countLast options)) as [L|]; cbv zeta.
  - destruct (_ >? _).
    + destruct (trimToLength_start_shape (JS.slice strings 0 (Some F))
                  (splitBudget (maxTotalLength options)
                     (stringArrayTotalLength (JS.slice strings 0 (Some F)))
                     (stringArrayTotalLength (JS.slice strings 0 (Some F))
                      + stringArrayTotalLength (JS.slice strings (- L) None))))
        as (k & _ & ->).
      destruct (trimToLength_end_shape (JS.slice strings (- L) None)
                  ((fun m => maxTotalLength options - m) <$>
                   splitBudget (maxTotalLength options)
                     (stringArrayTotalLength (JS.slice strings 0 (Some F)))
                     (stringArrayTotalLength (JS.slice strings 0 (Some F))
                      + stringArrayTotalLength (JS.slice strings (- L) None))))
        as (r & _ & ->).
      rewrite !elem_of_app, list_elem_of_singleton.
      intros [Hin | [-> | Hin]].
      * left. eapply slice_subset, subseteq_take. exact Hin.
      * right. eexists. left. reflexivity.
      * left. eapply slice_subset, subseteq_drop. exact Hin.
    + rewrite elem_of_app. intros [Hin|Hin]; left; eapply slice_subset; exact Hin.
  - destruct (trimToLength_start_shape (JS.slice strings 0 (Some F))
                (Some (maxTotalLength options))) as (k & _ & ->).
    destruct (_ >? _).
    + rewrite elem_of_app, list_elem_of_singleton. intros [Hin | ->].
      * left. eapply slice_subset, subseteq_take. exact Hin.
      * right. eexists. right. reflexivity.
    + intros Hin. left. eapply slice_subset, subseteq_take. exact Hin.
  - destruct (trimToLength_end_shape (JS.slice strings (- L) None)
                (Some (maxTotalLength options))) as (r & _ & ->).
    destruct (_ >? _).
    + rewrite elem_of_cons. intros [-> | Hin].
      * right. eexists. right. reflexivity.
      * left. eapply slice_subset, subseteq_drop. exact Hin.
    + intros Hin. left. eapply slice_subset, subseteq_drop. exact Hin.
  - destruct (trimToLength_end_shape strings (Some (maxTotalLength options)))
      as (r & _ & ->).
    destruct (_ >? _).
    + rewrite elem_of_cons. intros [-> | Hin].
      * right. eexists. right. reflexivity.
      * left. eapply subseteq_drop. exact Hin.
    + intros Hin. left. eapply subseteq_drop. exact Hin.
Qed.

Lemma returned_lines_come_from_input_witness :
  "ccc" ∈ ["aaa"; "bbb"; "ccc"] \/ exists n, isMarker "ccc" n.
Proof.
  apply (returned_lines_come_from_input ["aaa"; "bbb"; "ccc"]
           {| maxTotalLength := 4; countFirst := None; countLast := None |}).
  vm_compute. apply list_elem_of_In. simpl. auto.
Defined.
End TrimmerWindows.

(** ** Further properties of the filters *)

Section PipelineFacts.
Context {A F : Type}.
Variable matches : A -> F -> Result bool.
Implicit Types (callback : A -> Result bool) (records out : list A) (filters : list F).

Lemma some_all_false {B : Type} (callback : B -> Result bool) (array : list B) :
  (forall x, x ∈ array -> callback x = Ok false) -> some callback array = Ok false.
Proof.
  induction array as [|y array IH]; intros Hall; [reflexivity|]. simpl.
  rewrite (Hall y) by left. simpl. apply IH. intros x Hx. apply Hall. right. exact Hx.
Qed.

Lemma some_app_true {B : Type} (callback : B -> Result bool) (array more : list B) :
  some callback array = Ok true -> some callback (array ++ more) = Ok true.
Proof.
  induction array as [|y array IH]; simpl; [discriminate|].
  destruct (callback y) as [[|]|e]; simpl; auto.
Qed.

Lemma some_app_false {B : Type} (callback : B -> Result bool) (array more : list B) :
  some callback (array ++ more) = Ok false -> some callback array = Ok false.
Proof.
  intros Hsome. apply some_all_false. intros x Hx.
  apply (some_false _ _ Hsome). apply elem_of_app. left. exact Hx.
Qed.

Lemma filterArray_sublist callback records out :
  filterArray callback records = Ok out -> out `sublist_of` records.
Proof.
  revert out. induction records as [|y records IH]; simpl; intros out Hf.
  - injection Hf as <-. constructor.
  - destruct (callback y) as [b|e]; simpl in Hf; [|discriminate].
    destruct (filterArray callback records) as [rest|e]; simpl in Hf; [|discriminate].
    injection Hf as <-. destruct b; [apply sublist_skip | apply sublist_cons]; auto.
Qed.

Lemma filterArray_answers callback records out :
  filterArray callback records = Ok out ->
  forall x, x ∈ records -> exists b, callback x = Ok b.
Proof.
  revert out. induction records as [|y records IH]; simpl; intros out Hf x Hx.
  - inversion Hx.
  - destruct (callback y) as [b|e] eqn:Hy; simpl in Hf; [|discriminate].
    destruct (filterArray callback records) as [rest|e]; simpl in Hf; [|discriminate].
    apply elem_of_cons in Hx as [->|Hx]; [eauto | exact (IH rest eq_refl x Hx)].
Qed.

Lemma filterArray_keeps callback records out x :
  filterArray callback records = Ok out ->
  x ∈ records -> callback x = Ok true -> x ∈ out.
Proof.
  revert out. induction records as [|y records IH]; simpl; intros out Hf Hx Htrue.
  - inversion Hx.
  - destruct (callback y) as [b|e] eqn:Hy; simpl in Hf; [|discriminate].
    destruct (filterArray callback records) as [rest|e]; simpl in Hf; [|discriminate].
    injection Hf as <-. apply elem_of_cons in Hx as [->|Hx].
    + rewrite Htrue in Hy. injection Hy as <-. left.
    + specialize (IH rest eq_refl Hx Htrue). destruct b; [right|]; exact IH.
Qed.

Lemma filterArray_all_true callback records :
  (forall x, x ∈ records -> callback x = Ok true) ->
  filterArray callback records = Ok records.
Proof.
  induction records as [|y records IH]; intros Hall; [reflexivity|]. simpl.
  rewrite (Hall y) by left. simpl. rewrite IH; [reflexivity|].
  intros x Hx. apply Hall. right. exact Hx.
Qed.

(** What the predicate of a step answers, when it answers. *)
Lemma createFilter_include filters x (b : bool) :
  createFilter matches filters true x = Ok b ->
  (b = true <-> passesInclude matches (Some filters) x).
Proof.
  unfold createFilter, passesInclude. destruct filters as [|f filters].
  - intros [= <-]. tauto.
  - destruct (some (matches x) (f :: filters)) as [any|e] eqn:Hsome; [|discriminate].
    simpl. intros [= <-]. destruct any.
    + split; [intros _ | reflexivity].
      clear -Hsome. revert Hsome. generalize (f :: filters) as l.
      induction l as [|g l IH]; simpl; [discriminate|].
      destruct (matches x g) as [[|]|e] eqn:Hg; simpl; try discriminate.
      * intros _. exists g. split; [left | exact Hg].
      * intros Hl. destruct (IH Hl) as (h & Hin & Hh). exists h. split; [right|]; assumption.
    + split; [discriminate|]. intros (g & Hin & Hg).
      rewrite (some_false _ _ Hsome g Hin) in Hg. discriminate.
Qed.

Lemma createFilter_exclude filters x (b : bool) :
  createFilter matches filters false x = Ok b ->
  (b = true <-> passesExclude matches (Some filters) x).
Proof.
  unfold createFilter, passesExclude. destruct filters as [|f filters].
  - intros [= <-]. split; [discriminate | contradiction].
  - destruct (some (matches x) (f :: filters)) as [any|e] eqn:Hsome; [|discriminate].
    simpl. intros [= <-]. destruct any; simpl.
    + split; [discriminate|]. intros Hall.
      rewrite (some_all_false _ _ Hall) in Hsome. discriminate.
    + split; [intros _ | reflexivity]. exact (some_false _ _ Hsome).
Qed.

Lemma step_elem filters isInclude records out x :
  filterArray (createFilter matches filters isInclude) records = Ok out ->
  (x ∈ out <-> x ∈ records /\ createFilter matches filters isInclude x = Ok true).
Proof.
  intros Hf. split.
  - apply (filterArray_kept _ _ _ Hf).
  - intros [Hx Htrue]. exact (filterArray_keeps _ _ _ _ Hf Hx Htrue).
Qed.

(** The records that come out of the two steps. *)
Lemma filterRecords_elem records include exclude out x :
  filterRecords matches records include exclude = Ok out ->
  (x ∈ out <->
   x ∈ records /\ passesInclude matches include x /\ passesExclude matches exclude x).
Proof.
  unfold filterRecords.
  assert (Hin : forall filters mid, 
            filterArray (createFilter matches filters true) records = Ok mid ->
            (x ∈ mid <-> x ∈ records /\ passesInclude matches (Some filters) x)).
  { intros filters mid Hmid. rewrite (step_elem _ _ _ _ x Hmid). split.
    - intros [Hx Htrue]. split; [exact Hx|].
      apply (createFilter_include _ _ _ Htrue). reflexivity.
    - intros [Hx Hpass]. split; [exact Hx|].
      destruct (filterArray_answers _ _ _ Hmid x Hx) as [b Hb].
      rewrite Hb. f_equal. apply (createFilter_include _ _ _ Hb). exact Hpass. }
  assert (Hex : forall filters mid,
            filterArray (createFilter matches filters false) mid = Ok out ->
            (x ∈ out <-> x ∈ mid /\ passesExclude matches (Some filters) x)).
  { intros filters mid Hout. rewrite (step_elem _ _ _ _ x Hout). split.
    - intros [Hx Htrue]. split; [exact Hx|].
      apply (createFilter_exclude _ _ _ Htrue). reflexivity.
    - intros [Hx Hpass]. split; [exact Hx|].
      destruct (filterArray_answers _ _ _ Hout x Hx) as [b Hb].
      rewrite Hb. f_equal. apply (createFilter_exclude _ _ _ Hb). exact Hpass. }
  destruct include as [include|]; simpl.
  - destruct (filterArray _ records) as [mid|e] eqn:Hmid; simpl; [|discriminate].
    destruct exclude as [exclude|].
    + intros Hout. rewrite (Hex _ _ Hout), (Hin _ _ Hmid). tauto.
    + intros [= <-]. rewrite (Hin _ _ Hmid). simpl. tauto.
  - destruct exclude as [exclude|].
    + intros Hout. rewrite (Hex _ _ Hout). simpl. tauto.
    + intros [= <-]. simpl. tauto.
Qed.

Lemma filterRecords_sublist records include exclude out :
  filterRecords matches records include exclude = Ok out -> out `sublist_of` records.
Proof.
  unfold filterRecords. destruct include as [include|]; simpl.
  - destruct (filterArray _ records) as [mid|e] eqn:Hmid; simpl; [|discriminate].
    apply filterArray_sublist in Hmid. destruct exclude as [exclude|].
    + intros Hout. apply filterArray_sublist in Hout. etransitivity; eassumption.
    + intros [= <-]. exact Hmid.
  - destruct exclude as [exclude|].
    + apply filterArray_sublist.
    + intros [= <-]. reflexivity.
Qed.

Lemma filterRecords_again records include exclude out :
  filterRecords matches records include exclude = Ok out ->
  filterRecords matches out include exclude = Ok out.
Proof.
  intros Hout.
  assert (Hans : forall x, x ∈ out ->
            (forall filters, include = Some filters ->
               createFilter matches filters true x = Ok true)
            /\ (forall filters, exclude = Some filters ->
               createFilter matches filters false x = Ok true)).
  { intros x Hx. pose proof Hout as Hsteps. unfold filterRecords in Hsteps.
    split; intros filters Heq; subst; simpl in Hsteps.
    - destruct (filterArray _ records) as [mid|e] eqn:Hmid; simpl in Hsteps;
        [|discriminate].
      assert (Hxmid : x ∈ mid).
      { destruct exclude as [exclude|].
        - apply (filterArray_kept _ _ _ Hsteps x Hx).
        - injection Hsteps as <-. exact Hx. }
      apply (filterArray_kept _ _ _ Hmid x Hxmid).
    - destruct (match include with Some _ => _ | None => _ end) as [mid|e];
        simpl in Hsteps; [|discriminate].
      apply (filterArray_kept _ _ _ Hsteps x Hx). }
  unfold filterRecords.
  assert (Hfirst : match include with
                   | Some include => filterArray (createFilter matches include true) out
                   | None => Ok out
                   end = Ok out).
  { destruct include as [include|]; [|reflexivity].
    apply filterArray_all_true. intros x Hx. apply (Hans x Hx). reflexivity. }
  rewrite Hfirst. simpl. destruct exclude as [exclude|]; [|reflexivity].
  apply filterArray_all_true. intros x Hx. apply (Hans x Hx). reflexivity.
Qed.
End PipelineFacts.

Lemma console_pipeline engine consoleMessages params :
  Console.filterMessages engine consoleMessages params
  = filterRecords (Console.matchesFilter engine) consoleMessages
      (Console.include params) (Console.exclude params).
Proof. reflexivity. Qed.

Lemma network_pipeline engine hostname requests currentPageUrl params :
  Network.filterEntries engine hostname requests currentPageUrl params
  = filterRecords (fun entry => Network.matchesFilter engine hostname currentPageUrl entry)
      requests (Network.include params) (Network.exclude params).
Proof. reflexivity. Qed.

Section FilterPipelines.
Implicit Types (engine : RegExpEngine) (hostname : string -> option string).

(** X7. The records that pass the filters come out in the order they
    came in: the result of the two filtering steps is a subsequence of
    the log, in both tools. *)
Theorem filtering_keeps_order engine hostname :
  (forall consoleMessages params out,
      Console.filterMessages engine consoleMessages params = Ok out ->
      out `sublist_of` consoleMessages)
  /\ (forall requests currentPageUrl params out,
      Network.filterEntries engine hostname requests currentPageUrl params = Ok out ->
      out `sublist_of` requests).
Proof.
  split.
  - intros consoleMessages params out. rewrite console_pipeline.
    apply filterRecords_sublist.
  - intros requests currentPageUrl params out. rewrite network_pipeline.
    apply filterRecords_sublist.
Qed.

Lemma filtering_keeps_order_witness :
  let keep := {| Console.type := "log"; Console.text := "Keep this log";
                 Console.toString := "[LOG] Keep this log" |} in
  let remove := {| Console.type := "error"; Console.text := "Remove this error";
                   Console.toString := "[ERROR] Remove this error" |} in
  [keep; keep] `sublist_of` [keep; remove; keep].
Proof.
  intros keep remove.
  apply (proj1 (filtering_keeps_order exampleEngine (fun _ => None))
           [keep; remove; keep]
           {| Console.include := None;
              Console.exclude := Some [{| Console.types := Some [Console.error];
                                          Console.pattern := None |}];
              Console.first := None; Console.last := None |}).
  vm_compute. reflexivity.
Defined.

(** X8. When the filtering returns, a record is in the result exactly
    when it is in the log, it passes [include] (which is absent or empty,
    or has a clause that the record matches) and it passes [exclude]
    (which is absent, or is not empty and has no clause that the record
    matches), in both tools. *)
Theorem filtered_records_characterised engine hostname :
  (forall consoleMessages params out message,
      Console.filterMessages engine consoleMessages params = Ok out ->
      (message ∈ out <->
       message ∈ consoleMessages
       /\ passesInclude (Console.matchesFilter engine) (Console.include params) message
       /\ passesExclude (Console.matchesFilter engine) (Console.exclude params) message))
  /\ (forall requests currentPageUrl params out entry,
      Network.filterEntries engine hostname requests currentPageUrl params = Ok out ->
      (entry ∈ out <->
       entry ∈ requests
       /\ passesInclude (Network.matchesFilter engine hostname currentPageUrl)
            (Network.include params) entry
       /\ passesExclude (Network.matchesFilter engine hostname currentPageUrl)
            (Network.exclude params) entry)).
Proof.
  split.
  - intros consoleMessages params out message. rewrite console_pipeline.
    apply filterRecords_elem.
  - intros requests currentPageUrl params out entry. rewrite network_pipeline.
    apply (filterRecords_elem (Network.matchesFilter engine hostname currentPageUrl)).
Qed.

Lemma filtered_records_characterised_witness :
  let keep := {| Console.type := "log"; Console.text := "Keep this log";
                 Console.toString := "[LOG] Keep this log" |} in
  let remove := {| Console.type := "error"; Console.text := "Remove this error";
                   Console.toString := "[ERROR] Remove this error" |} in
  let errors := {| Console.types := Some [Console.error]; Console.pattern := None |} in
  keep ∈ [keep] <->
  keep ∈ [keep; remove]
  /\ passesInclude (Console.matchesFilter exampleEngine) None keep
  /\ passesExclude (Console.matchesFilter exampleEngine) (Some [errors]) keep.
Proof.
  intros keep remove errors.
  apply (proj1 (filtered_records_characterised exampleEngine (fun _ => None))
           [keep; remove]
           {| Console.include := None; Console.exclude := Some [errors];
              Console.first := None; Console.last := None |} [keep] keep).
  vm_compute. reflexivity.
Defined.

(** X9. Filtering what was already filtered, with the same [include]
    and [exclude], changes nothing, in both tools. *)
Theorem refiltering_changes_nothing engine hostname :
  (forall consoleMessages params out,
      Console.filterMessages engine consoleMessages params = Ok out ->
      Console.filterMessages engine out params = Ok out)
  /\ (forall requests currentPageUrl params out,
      Network.filterEntries engine hostname requests currentPageUrl params = Ok out ->
      Network.filterEntries engine hostname out currentPageUrl params = Ok out).
Proof.
  split.
  - intros consoleMessages params out. rewrite !console_pipeline.
    apply filterRecords_again.
  - intros requests currentPageUrl params out. rewrite !network_pipeline.
    apply filterRecords_again.
Qed.

Lemma refiltering_changes_nothing_witness :
  let keep := {| Console.type := "log"; Console.text := "Keep this log";
                 Console.toString := "[LOG] Keep this log" |} in
  let params := {| Console.include := Some [{| Console.types := Some [Console.info];
                                               Console.pattern := Some "Keep" |}];
                   Console.exclude := None;
                   Console.first := None; Console.last := None |} in
  Console.filterMessages exampleEngine [keep] params = Ok [keep].
Proof.
  intros keep params.
  apply (proj1 (refiltering_changes_nothing exampleEngine (fun _ => None))
           [keep; {| Console.type := "error"; Console.text := "Remove this error";
                     Console.toString := "[ERROR] Remove this error" |}] params [keep]).
  vm_compute. reflexivity.
Defined.

(** X10. Clauses added to a list that is not empty work in one
    direction only: more [include] clauses never lose a record that was
    kept, and more [exclude] clauses never bring back a record that was
    dropped.  Shown for the console tool; the list must not be empty,
    since an empty [include] keeps every record. *)
Theorem added_clauses_are_monotone engine consoleMessages
    (filters more : list Console.ConsoleFilter) (other : option (list Console.ConsoleFilter))
    (first last : option Z) (out out' : list Console.ConsoleMessage) :
  filters <> [] ->
  (Console.filterMessages engine consoleMessages
     {| Console.include := Some filters; Console.exclude := other;
        Console.first := first; Console.last := last |} = Ok out ->
   Console.filterMessages engine consoleMessages
     {| Console.include := Some (filters ++ more); Console.exclude := other;
        Console.first := first; Console.last := last |} = Ok out' ->
   forall message, message ∈ out -> message ∈ out')
  /\ (Console.filterMessages engine consoleMessages
        {| Console.include := other; Console.exclude := Some filters;
           Console.first := first; Console.last := last |} = Ok out ->
      Console.filterMessages engine consoleMessages
        {| Console.include := other; Console.exclude := Some (filters ++ more);
           Console.first := first; Console.last := last |} = Ok out' ->
      forall message, message ∈ out' -> message ∈ out).
Proof.
  intros Hne. destruct filters as [|f filters]; [contradiction|].
  rewrite !console_pipeline. cbn [Console.include Console.exclude].
  split; intros Hout Hout' message Hin.
  - apply (filterRecords_elem _ _ _ _ _ message Hout') .
    apply (filterRecords_elem _ _ _ _ _ message Hout) in Hin as (Hm & Hinc & Hexc).
    split; [exact Hm|]. split; [|exact Hexc].
    destruct Hinc as (g & Hg & Hmatch). exists g. split; [|exact Hmatch].
    apply elem_of_app. left. exact Hg.
  - apply (filterRecords_elem _ _ _ _ _ message Hout).
    apply (filterRecords_elem _ _ _ _ _ message Hout') in Hin as (Hm & Hinc & Hexc).
    split; [exact Hm|]. split; [exact Hinc|].
    intros g Hg. apply Hexc. change (g ∈ (f :: filters) ++ more).
    apply elem_of_app. left. exact Hg.
Qed.

Lemma added_clauses_are_monotone_witness :
  let log := {| Console.type := "log"; Console.text := "Hello";
                Console.toString := "[LOG] Hello" |} in
  let boom := {| Console.type := "error"; Console.text := "Boom";
                 Console.toString := "[ERROR] Boom" |} in
  forall message, message ∈ [log] -> message ∈ [log; boom].
Proof.
  intros log boom.
  apply (proj1 (added_clauses_are_monotone exampleEngine [log; boom]
                  [{| Console.types := Some [Console.info]; Console.pattern := None |}]
                  [{| Console.types := Some [Console.error]; Console.pattern := None |}]
                  None None None [log] [log; boom] ltac:(discriminate)));
    vm_compute; reflexivity.
Defined.
End FilterPipelines.

Section Clauses.
Implicit Types (engine : RegExpEngine) (hostname : string -> option string).

Lemma console_includes (t : Console.MessageType) (types : list Console.MessageType) :
  existsb (Console.MessageType_eqb t) types = true <-> t ∈ types.
Proof.
  rewrite existsb_exists. split.
  - intros (t' & Hin & Heq). apply list_elem_of_In.
    destruct t, t'; try discriminate; exact Hin.
  - intros Hin. exists t. split; [apply list_elem_of_In; exact Hin | destruct t; reflexivity].
Qed.

Lemma network_includes (t : Network.RequestType) (types : list Network.RequestType) :
  existsb (Network.RequestType_eqb t) types = true <-> t ∈ types.
Proof.
  rewrite existsb_exists. split.
  - intros (t' & Hin & Heq). apply list_elem_of_In.
    destruct t, t'; try discriminate; exact Hin.
  - intros Hin. exists t. split; [apply list_elem_of_In; exact Hin | destruct t; reflexivity].
Qed.

Lemma status_in_ranges (status : Z) (statuses : list (Z * Z)) :
  existsb (fun '(min, max) => (status >=? min) && (status <=? max)) statuses = true
  <-> exists min max, (min, max) ∈ statuses /\ min <= status <= max.
Proof.
  rewrite existsb_exists. split.
  - intros ([min max] & Hin & Hb). exists min, max.
    split; [apply list_elem_of_In; exact Hin | lia].
  - intros (min & max & Hin & Hb). exists (min, max).
    split; [apply list_elem_of_In; exact Hin | lia].
Qed.

(** The pattern criterion, alone. *)
Lemma pattern_criterion engine (pattern : option string) (text : string) :
  match truthyString pattern with
  | Some pattern =>
      let! regex := newRegExp engine pattern in
      if negb (regex text) then Ok false else Ok true
  | None => Ok true
  end = Ok true
  <-> match truthyString pattern with
      | Some pattern => exists regex, engine pattern = Some regex /\ regex text = true
      | None => True
      end.
Proof.
  unfold newRegExp. destruct (truthyString pattern) as [p|]; [|tauto].
  destruct (engine p) as [regex|]; simpl.
  - destruct (regex text) eqn:Htest; simpl.
    + split; [eauto | reflexivity].
    + split; [discriminate | intros (regex' & [= <-] & Htest'); congruence].
  - split; [discriminate | intros (regex' & Heq & _); discriminate].
Qed.

(** X11. A console clause is the conjunction of its criteria: it is
    satisfied exactly when the severity of the message is one of the
    listed types, or no type is listed, and the pattern compiles and
    matches the text, or the pattern is absent or empty. *)
Theorem console_clause_is_conjunction engine (message : Console.ConsoleMessage)
    (filter : Console.ConsoleFilter) :
  Console.matchesFilter engine message filter = Ok true <->
  match Console.types filter with
  | Some ((_ :: _) as types) => Console.getConsoleMessageType message ∈ types
  | _ => True
  end
  /\ match truthyString (Console.pattern filter) with
     | Some pattern =>
         exists regex, engine pattern = Some regex /\ regex (Console.text message) = true
     | None => True
     end.
Proof.
  unfold Console.matchesFilter.
  rewrite <- (pattern_criterion engine (Console.pattern filter) (Console.text message)).
  destruct (Console.types filter) as [[|t types]|]; try tauto.
  rewrite <- console_includes.
  destruct (existsb _ (t :: types)); simpl; [tauto|].
  split; [discriminate | intros [Hf _]; discriminate].
Qed.

Lemma console_clause_is_conjunction_witness :
  Console.matchesFilter exampleEngine
    {| Console.type := "log"; Console.text := "Hello world";
       Console.toString := "[LOG] Hello world" |}
    {| Console.types := Some [Console.error; Console.info];
       Console.pattern := Some "Hello" |}
  = Ok true.
Proof.
  apply console_clause_is_conjunction. simpl. split.
  - apply list_elem_of_In. simpl. auto.
  - eexists. split; reflexivity.
Defined.

(** X12. A network clause is the conjunction of its criteria: for a
    request that has a response the status must lie in one of the ranges,
    ends included, when ranges are listed; the request type must be one of
    the listed types, when types are listed; and the pattern, when there
    is one, must compile and match the URL. *)
Theorem network_clause_is_conjunction engine hostname (currentPageUrl : string)
    (request : Network.Request) (response : option Network.Response)
    (filter : Network.NetworkFilter) :
  Network.matchesFilter engine hostname currentPageUrl (request, response) filter = Ok true
  <->
  match Network.statuses filter, response with
  | Some ((_ :: _) as statuses), Some response =>
      exists min max, (min, max) ∈ statuses
                      /\ min <= Network.status response <= max
  | _, _ => True
  end
  /\ match Network.types filter with
     | Some ((_ :: _) as types) =>
         Network.getNetworkRequestType hostname request currentPageUrl ∈ types
     | _ => True
     end
  /\ match truthyString (Network.pattern filter) with
     | Some pattern =>
         exists regex, engine pattern = Some regex /\ regex (Network.url request) = true
     | None => True
     end.
Proof.
  unfold Network.matchesFilter.
  rewrite <- (pattern_criterion engine (Network.pattern filter) (Network.url request)).
  assert (Hrest :
    (if match Network.types filter with
        | Some ((_ :: _) as types) =>
            negb (existsb (Network.RequestType_eqb
                             (Network.getNetworkRequestType hostname request currentPageUrl))
                    types)
        | _ => false
        end
     then Ok false
     else match truthyString (Network.pattern filter) with
          | Some pattern =>
              let! regex := newRegExp engine pattern in
              if negb (regex (Network.url request)) then Ok false else Ok true
          | None => Ok true
          end) = Ok true
    <-> match Network.types filter with
        | Some ((_ :: _) as types) =>
            Network.getNetworkRequestType hostname request currentPageUrl ∈ types
        | _ => True
        end
        /\ match truthyString (Network.pattern filter) with
           | Some pattern =>
               let! regex := newRegExp engine pattern in
               if negb (regex (Network.url request)) then Ok false else Ok true
           | None => Ok true
           end = Ok true).
  { destruct (Network.types filter) as [[|t types]|]; try tauto.
    rewrite <- network_includes.
    destruct (existsb _ (t :: types)); simpl; [tauto|].
    split; [discriminate | intros [Hf _]; discriminate]. }
  destruct (Network.statuses filter) as [[|range ranges]|], response as [response|];
    try (rewrite Hrest; tauto).
  rewrite <- status_in_ranges.
  destruct (existsb _ (range :: ranges)); simpl.
  - rewrite Hrest. tauto.
  - split; [discriminate | intros [Hf _]; discriminate].
Qed.

Lemma network_clause_is_conjunction_witness :
  Network.matchesFilter exampleEngine (fun _ => None) "http://localhost/"
    ({| Network.url := "http://localhost/api"; Network.method := "get" |},
     Some {| Network.status := 299; Network.statusText := "OK" |})
    {| Network.statuses := Some [(200, 299)]; Network.types := Some [Network.thirdParty];
       Network.pattern := Some "http" |}
  = Ok true.
Proof.
  apply network_clause_is_conjunction. simpl. split; [|split].
  - exists 200, 299. split; [apply list_elem_of_singleton; reflexivity | lia].
  - apply list_elem_of_singleton. reflexivity.
  - eexists. split; reflexivity.
Defined.

(** X13. A clause whose types turn a record away is not satisfied, and
    its pattern is not compiled: the answer is [false] even when the
    pattern is malformed.  In both tools. *)
Theorem rejected_type_skips_pattern engine hostname :
  (forall message filter t types,
      Console.types filter = Some (t :: types) ->
      Console.getConsoleMessageType message ∉ t :: types ->
      Console.matchesFilter engine message filter = Ok false)
  /\ (forall currentPageUrl request response filter t types,
      Network.types filter = Some (t :: types) ->
      Network.getNetworkRequestType hostname request currentPageUrl ∉ t :: types ->
      Network.matchesFilter engine hostname currentPageUrl (request, response) filter
      = Ok false).
Proof.
  split.
  - intros message filter t types Htypes Hout. unfold Console.matchesFilter.
    rewrite Htypes.
    replace (existsb _ (t :: types)) with false; [reflexivity|].
    symmetry. apply not_true_is_false. rewrite console_includes. exact Hout.
  - intros currentPageUrl request response filter t types Htypes Hout.
    unfold Network.matchesFilter.
    destruct (match Network.statuses filter, response with
              | Some ((_ :: _) as l), Some r => _ | _, _ => _ end); [reflexivity|].
    rewrite Htypes.
    replace (existsb _ (t :: types)) with false; [reflexivity|].
    symmetry. apply not_true_is_false. rewrite network_includes. exact Hout.
Qed.

Lemma rejected_type_skips_pattern_witness :
  Console.matchesFilter exampleEngine
    {| Console.type := "log"; Console.text := "Hello"; Console.toString := "[LOG] Hello" |}
    {| Console.types := Some [Console.error]; Console.pattern := Some "(" |}
  = Ok false.
Proof.
  apply (proj1 (rejected_type_skips_pattern exampleEngine (fun _ => None))
           _ _ Console.error []); [reflexivity|].
  simpl. intros Hin. apply list_elem_of_singleton in Hin. discriminate.
Defined.

(** X14. A first clause without criteria (no types or an empty list of
    them, no pattern or an empty one) decides alone: as first clause of
    [include] it keeps every record, as first clause of [exclude] it
    drops every record, and the clauses after it are never looked at,
    malformed or not.  Shown for the console tool. *)
Theorem empty_first_clause_decides engine consoleMessages
    (clause : Console.ConsoleFilter) (rest : list Console.ConsoleFilter)
    (first last : option Z) :
  (Console.types clause = None \/ Console.types clause = Some []) ->
  truthyString (Console.pattern clause) = None ->
  Console.filterMessages engine consoleMessages
    {| Console.include := Some (clause :: rest); Console.exclude := None;
       Console.first := first; Console.last := last |} = Ok consoleMessages
  /\ Console.filterMessages engine consoleMessages
       {| Console.include := None; Console.exclude := Some (clause :: rest);
          Console.first := first; Console.last := last |} = Ok [].
Proof.
  intros Htypes Hpattern.
  assert (Hclause : forall message, Console.matchesFilter engine message clause = Ok true).
  { intros message. unfold Console.matchesFilter. rewrite Hpattern.
    destruct Htypes as [-> | ->]; reflexivity. }
  unfold Console.filterMessages. cbn [Console.include Console.exclude bind].
  split.
  - rewrite (filterArray_const _ _ true); [reflexivity|].
    intros message. simpl. rewrite Hclause. reflexivity.
  - rewrite (filterArray_const _ _ false); [reflexivity|].
    intros message. simpl. rewrite Hclause. reflexivity.
Qed.

Lemma empty_first_clause_decides_witness :
  let log := {| Console.type := "log"; Console.text := "Hello";
                Console.toString := "[LOG] Hello" |} in
  Console.filterMessages exampleEngine [log]
    {| Console.include := Some [{| Console.types := Some []; Console.pattern := Some "" |};
                                {| Console.types := None; Console.pattern := Some "(" |}];
       Console.exclude := None; Console.first := None; Console.last := None |} = Ok [log].
Proof.
  intros log.
  apply (proj1 (empty_first_clause_decides exampleEngine [log]
                 {| Console.types := Some []; Console.pattern := Some "" |}
                 [{| Console.types := None; Console.pattern := Some "(" |}] None None
                 (or_intror eq_refl) eq_refl)).
Defined.
End Clauses.

Section ToolResults.
Implicit Types (engine : RegExpEngine) (hostname : string -> option string).

(** X15. A request is of type [extension] exactly when its URL starts
    with one of the two extension schemes, whatever the host names; it is
    of type [sameHost] exactly when it is not and both its URL and the
    URL of the page parse to the same host name; otherwise, also when a
    URL does not parse, it is third party. *)
Theorem request_type_classification hostname (request : Network.Request)
    (currentPageUrl : string) :
  let isExtension :=
    String.prefix "chrome-extension://" (Network.url request)
    || String.prefix "moz-extension://" (Network.url request) in
  let requestType := Network.getNetworkRequestType hostname request currentPageUrl in
  (requestType = Network.extension <-> isExtension = true)
  /\ (requestType = Network.sameHost <->
      isExtension = false
      /\ exists domain, hostname (Network.url request) = Some domain
                        /\ hostname currentPageUrl = Some domain)
  /\ (requestType = Network.thirdParty <->
      isExtension = false
      /\ ~ exists domain, hostname (Network.url request) = Some domain
                          /\ hostname currentPageUrl = Some domain).
Proof.
  intros isExtension requestType. subst isExtension requestType.
  unfold Network.getNetworkRequestType.
  destruct (String.prefix "chrome-extension://" (Network.url request)
            || String.prefix "moz-extension://" (Network.url request)).
  - repeat split; try discriminate; intros [Hf _]; discriminate.
  - destruct (hostname (Network.url request)) as [requestDomain|],
             (hostname currentPageUrl) as [currentDomain|];
      try (repeat split; try discriminate;
           try (intros [_ (d & Hd & Hd')]; discriminate);
           try (intros (d & Hd & Hd'); discriminate); fail).
    destruct (String.eqb_spec requestDomain currentDomain) as [->|Hne].
    + repeat split; try discriminate; eauto.
      intros [_ Hnot]. exfalso. apply Hnot. eauto.
    + repeat split; try discriminate.
      * intros [_ (d & [= ->] & [= ->])]. contradiction.
      * intros (d & [= ->] & [= ->]). contradiction.
Qed.

Lemma request_type_classification_witness :
  Network.getNetworkRequestType
    (fun url => if String.prefix "http://localhost" url then Some "localhost" else None)
    {| Network.url := "http://localhost/api"; Network.method := "GET" |}
    "http://localhost/"
  = Network.sameHost.
Proof.
  apply request_type_classification. split; [reflexivity|].
  exists "localhost". split; reflexivity.
Defined.

(** X16. The network tool never answers with no line at all: what it
    returns is not empty, and when no request is left after the filtering
    it is the one explanatory line. *)
Theorem network_answer_never_empty engine hostname (toUpperCase : string -> string)
    requests currentPageUrl params (lines : list string) :
  Network.handle engine hostname toUpperCase requests currentPageUrl params = Ok lines ->
  lines <> []
  /\ (Network.filterEntries engine hostname requests currentPageUrl params = Ok [] ->
      lines = ["No network requests found matching the specified filters"]).
Proof.
  unfold Network.handle.
  destruct (Network.filterEntries engine hostname requests currentPageUrl params)
    as [entries|e]; simpl; [|discriminate].
  intros [= <-]. split.
  - destruct (Utils.stringArrayApplyLimits _ _); discriminate.
  - intros [= ->]. simpl. rewrite applyLimits_nil; [reflexivity | simpl; discriminate].
Qed.

Lemma network_answer_never_empty_witness :
  ["No network requests found matching the specified filters"] <> [].
Proof.
  apply (network_answer_never_empty exampleEngine (fun _ => None) (fun s => s) []
           "http://localhost/"
           {| Network.include := None; Network.exclude := None;
              Network.first := None; Network.last := None |}).
  vm_compute. reflexivity.
Defined.
End ToolResults.

Section UnfilteredLogs.
Implicit Types (engine : RegExpEngine) (hostname : string -> option string).

Lemma applyLimits_all (strings : list string) (budget : Z) :
  Utils.stringArrayTotalLength strings <= budget ->
  Utils.stringArrayApplyLimits strings
    {| Utils.maxTotalLength := budget; Utils.countFirst := None; Utils.countLast := None |}
  = strings.
Proof.
  intros Hfit. unfold Utils.stringArrayApplyLimits.
  cbn [Utils.maxTotalLength Utils.countFirst Utils.countLast JS.truthy].
  rewrite trimToLength_end_all by exact Hfit. rewrite Z.sub_diag. reflexivity.
Qed.

(** X17. Called with no filter and no count on a log whose rendered
    lines hold in 2000 characters together, the console tool returns the
    rendered form of every message, in order, and the network tool the
    rendering of every request when there is at least one. *)
Theorem unfiltered_log_is_rendered engine hostname (toUpperCase : string -> string) :
  (forall consoleMessages,
      Utils.stringArrayTotalLength (map Console.toString consoleMessages) <= 2000 ->
      Console.handle engine consoleMessages
        {| Console.include := None; Console.exclude := None;
           Console.first := None; Console.last := None |}
      = Ok (map Console.toString consoleMessages))
  /\ (forall requests currentPageUrl,
      requests <> [] ->
      Utils.stringArrayTotalLength
        (map (fun '(req, res) => Network.renderRequest toUpperCase req res) requests)
      <= 2000 ->
      Network.handle engine hostname toUpperCase requests currentPageUrl
        {| Network.include := None; Network.exclude := None;
           Network.first := None; Network.last := None |}
      = Ok (map (fun '(req, res) => Network.renderRequest toUpperCase req res) requests)).
Proof.
  split.
  - intros consoleMessages Hfit. unfold Console.handle, Console.filterMessages.
    cbn [Console.include Console.exclude Console.first Console.last bind].
    rewrite applyLimits_all by exact Hfit. reflexivity.
  - intros requests currentPageUrl Hne Hfit. unfold Network.handle, Network.filterEntries.
    cbn [Network.include Network.exclude Network.first Network.last bind].
    rewrite applyLimits_all by exact Hfit.
    destruct requests as [|entry requests]; [contradiction | reflexivity].
Qed.

Lemma unfiltered_log_is_rendered_witness :
  Console.handle exampleEngine
    [{| Console.type := "log"; Console.text := "Hello, world!";
        Console.toString := "[LOG] Hello, world! @ http://localhost/:4" |};
     {| Console.type := "error"; Console.text := "Error";
        Console.toString := "[ERROR] Error @ http://localhost/:5" |}]
    {| Console.include := None; Console.exclude := None;
       Console.first := None; Console.last := None |}
  = Ok ["[LOG] Hello, world! @ http://localhost/:4"; "[ERROR] Error @ http://localhost/:5"].
Proof.
  apply (proj1 (unfiltered_log_is_rendered exampleEngine (fun _ => None) (fun s => s))).
  vm_compute. discriminate.
Defined.
End UnfilteredLogs.

(** ** Further properties of the completion barrier *)

Section BarrierProgress.
Import Barrier.
Context {R E : Type}.
Implicit Types (s : State R E) (ev : Event R E) (r : Resource).

Lemma run_snoc (events : list (Event R E)) ev :
  run (events ++ [ev]) = step (run events) ev.
Proof. unfold run. rewrite fold_left_app. reflexivity. Qed.

Lemma run_invariant_of (P : State R E -> Prop) :
  P start -> (forall s ev, P s -> P (step s ev)) ->
  forall events : list (Event R E), P (run events).
Proof.
  intros Hstart Hstep events. induction events as [|ev events IH] using rev_ind.
  - exact Hstart.
  - rewrite run_snoc. apply Hstep, IH.
Qed.

Lemma release_waitBarrier r s : waitBarrier (release r s) = waitBarrier s.
Proof. unfold release. destruct (decide (r ∈ active s)); reflexivity. Qed.

Lemma dispose_waitBarrier s : waitBarrier (dispose s) = waitBarrier s.
Proof. unfold dispose. rewrite !release_waitBarrier. reflexivity. Qed.

Lemma release_loadStatePending r s : loadStatePending (release r s) = loadStatePending s.
Proof. unfold release. destruct (decide (r ∈ active s)); reflexivity. Qed.

Lemma release_frameNavigated r s : frameNavigated (release r s) = frameNavigated s.
Proof. unfold release. destruct (decide (r ∈ active s)); reflexivity. Qed.

Lemma dispose_frameNavigated s : frameNavigated (dispose s) = frameNavigated s.
Proof. unfold dispose. rewrite !release_frameNavigated. reflexivity. Qed.

(** X18. The function never gets past [await waitBarrier] while the
    barrier is unresolved: whenever it waits for the final delay or has
    returned, [waitCallback] was called. *)
Theorem returns_only_after_barrier (events : list (Event R E)) (result : R) :
  position (run events) = awaitWaitForTimeout result
  \/ position (run events) = returned result ->
  waitBarrier (run events) = true.
Proof.
  revert result.
  apply (run_invariant_of (fun s => forall result,
           position s = awaitWaitForTimeout result \/ position s = returned result ->
           waitBarrier s = true)).
  - intros result [H|H]; discriminate.
  - intros s ev IH result. destruct ev; cbn [step].
    + destruct (decide (requestListener ∈ active s)); apply IH.
    + destruct (decide (requestFinishedListener ∈ active s)); [|apply IH].
      unfold onRequestFinished. cbn [requests setRequests].
      destruct (decide (requests s ∖ {[request]} = ∅)); [reflexivity | apply IH].
    + destruct (decide (frameNavigateListener ∈ active s)); [|apply IH].
      unfold onFrameNavigate. destruct hasParentFrame; [apply IH|].
      cbn [position waitBarrier].
      rewrite release_position, dispose_position, release_waitBarrier,
        dispose_waitBarrier. apply IH.
    + destruct (decide (timeout ∈ active s)); [reflexivity | apply IH].
    + destruct (loadStatePending s); [reflexivity | apply IH].
    + destruct (position s) eqn:Hpos; rewrite ?Hpos; try apply IH.
      unfold afterCallback.
      destruct (bool_decide (requests s = ∅) && negb (frameNavigated s)).
      * intros _. reflexivity.
      * destruct (waitBarrier s) eqn:Hb; cbn [setPosition position waitBarrier];
          [intros _; exact Hb|].
        intros [H|H]; discriminate.
    + destruct (position s) eqn:Hpos; rewrite ?Hpos; try apply IH.
      cbn [setPosition position]. intros [H|H]; discriminate.
    + destruct (position s) as [| |waiting| |] eqn:Hpos; rewrite ?Hpos; try apply IH.
      cbn [setPosition position waitBarrier].
      rewrite dispose_waitBarrier. intros _. apply (IH waiting). left. reflexivity.
    + destruct (position s) eqn:Hpos; rewrite ?Hpos; try apply IH.
      cbn [setPosition position]. intros [H|H]; discriminate.
Qed.
End BarrierProgress.

Lemma returns_only_after_barrier_witness :
  Barrier.waitBarrier
    (Barrier.run (R := nat) (E := string)
       [Barrier.emitRequest 1%nat; Barrier.callbackResolves 7%nat;
        Barrier.emitRequestFinished 1%nat; Barrier.waitForTimeoutResolves])
  = true.
Proof.
  apply (returns_only_after_barrier _ 7%nat). right. vm_compute. reflexivity.
Defined.

Section BarrierOutcomes.
Import Barrier.
Context {R E : Type}.
Implicit Types (s : State R E) (ev : Event R E) (r : Resource).

Lemma dispose_loadStatePending s : loadStatePending (dispose s) = loadStatePending s.
Proof. unfold dispose. rewrite !release_loadStatePending. reflexivity. Qed.

Lemma release_empty r s : active s = ∅ -> active (release r s) = ∅.
Proof.
  intros Hempty. rewrite release_active, Hempty.
  apply subseteq_empty_difference_L, empty_subseteq.
Qed.

Lemma not_active_when_empty r s : active s = ∅ -> r ∉ active s.
Proof. intros ->. apply not_elem_of_empty. Qed.

(** X19. What the function returns is what the action resolved with,
    and what it throws is what the action, or the final delay, rejected
    with: no outcome is made up. *)
Theorem outcome_comes_from_callback (events : list (Event R E)) :
  (forall result, position (run events) = returned result ->
     callbackResolves result ∈ events)
  /\ (forall error, position (run events) = thrown error ->
     callbackRejects error ∈ events \/ waitForTimeoutRejects error ∈ events).
Proof.
  assert (Hinv :
    (forall result,
       position (run events) = awaitWaitBarrier result
       \/ position (run events) = awaitWaitForTimeout result
       \/ position (run events) = returned result ->
       callbackResolves result ∈ events)
    /\ (forall error, position (run events) = thrown error ->
       callbackRejects error ∈ events \/ waitForTimeoutRejects error ∈ events)).
  { induction events as [|ev events [IHr IHe]] using rev_ind.
    - split; [intros result [H|[H|H]] | intros error H]; discriminate.
    - rewrite run_snoc. set (s := run events) in *.
      assert (Hkeep : forall s', position s' = position s ->
        (forall result,
           position s' = awaitWaitBarrier result
           \/ position s' = awaitWaitForTimeout result
           \/ position s' = returned result ->
           callbackResolves result ∈ events ++ [ev])
        /\ (forall error, position s' = thrown error ->
           callbackRejects error ∈ events ++ [ev]
           \/ waitForTimeoutRejects error ∈ events ++ [ev])).
      { intros s' ->. split.
        - intros result H. apply elem_of_app. left. exact (IHr result H).
        - intros error H. rewrite !elem_of_app. destruct (IHe error H); tauto. }
      assert (Hbarrier : forall s', position s' = position s ->
        (forall result,
           position (waitCallback s') = awaitWaitBarrier result
           \/ position (waitCallback s') = awaitWaitForTimeout result
           \/ position (waitCallback s') = returned result ->
           callbackResolves result ∈ events ++ [ev])
        /\ (forall error, position (waitCallback s') = thrown error ->
           callbackRejects error ∈ events ++ [ev]
           \/ waitForTimeoutRejects error ∈ events ++ [ev])).
      { intros s' Hs'. cbn [waitCallback position]. rewrite Hs'. split.
        - intros result H. apply elem_of_app. left. apply IHr.
          destruct (position s); destruct H as [H|[H|H]]; try discriminate;
            injection H as <-; auto.
        - intros error H. rewrite !elem_of_app.
          destruct (IHe error); [destruct (position s); try discriminate; exact H | |];
            tauto. }
      destruct ev; cbn [step].
      + destruct (decide (requestListener ∈ active s)); apply Hkeep; reflexivity.
      + destruct (decide (requestFinishedListener ∈ active s)); [|apply Hkeep; reflexivity].
        unfold onRequestFinished. cbn [requests setRequests].
        destruct (decide (requests s ∖ {[request]} = ∅)); [|apply Hkeep; reflexivity].
        apply (Hbarrier (setRequests _ s)). reflexivity.
      + destruct (decide (frameNavigateListener ∈ active s)); [|apply Hkeep; reflexivity].
        unfold onFrameNavigate. destruct hasParentFrame; [apply Hkeep; reflexivity|].
        apply Hkeep. cbn [position]. rewrite release_position, dispose_position. reflexivity.
      + destruct (decide (timeout ∈ active s)); [|apply Hkeep; reflexivity].
        apply Hbarrier. rewrite dispose_position, release_position. reflexivity.
      + destruct (loadStatePending s); [|apply Hkeep; reflexivity].
        apply (Hbarrier {| requests := requests s; frameNavigated := frameNavigated s;
                           waitBarrier := waitBarrier s; loadStatePending := false;
                           active := active s; released := released s;
                           position := position s |}). reflexivity.
      + destruct (position s) eqn:Hpos; try (apply Hkeep; exact Hpos).
        unfold afterCallback.
        destruct (bool_decide (requests s = ∅) && negb (frameNavigated s));
          cbn [waitCallback waitBarrier]; try destruct (waitBarrier s);
          cbn [setPosition position];
          (split; [intros r' [H|[H|H]]; try discriminate; injection H as <-;
                   apply elem_of_app; right; left
                  | intros e' H; discriminate]).
      + destruct (position s) eqn:Hpos; try (apply Hkeep; exact Hpos).
        cbn [setPosition position]. split; [intros r' [H|[H|H]]; discriminate|].
        intros e' [= <-]. left. apply elem_of_app. right. left.
      + destruct (position s) as [| |waiting| |] eqn:Hpos; try (apply Hkeep; exact Hpos).
        cbn [setPosition position]. split; [|intros e' H; discriminate].
        intros r' [H|[H|H]]; try discriminate. injection H as <-.
        apply elem_of_app. left. apply IHr. right. left. reflexivity.
      + destruct (position s) eqn:Hpos; try (apply Hkeep; exact Hpos).
        cbn [setPosition position]. split; [intros r' [H|[H|H]]; discriminate|].
        intros e' [= <-]. right. apply elem_of_app. right. left. }
  destruct Hinv as [Hr He]. split; [|exact He].
  intros result H. apply Hr. right. right. exact H.
Qed.
End BarrierOutcomes.

Lemma outcome_comes_from_callback_witness :
  Barrier.callbackResolves (E := string) 7%nat
  ∈ [Barrier.emitRequest 1%nat; Barrier.callbackResolves 7%nat;
     Barrier.timeoutElapses; Barrier.waitForTimeoutResolves].
Proof.
  apply (proj1 (outcome_comes_from_callback _)). vm_compute. reflexivity.
Defined.

Section BarrierLiveness.
Import Barrier.
Context {R E : Type}.
Implicit Types (s : State R E) (ev : Event R E) (r : Resource).

Lemma dispose_exited s : exited (dispose s) <-> exited s.
Proof. unfold exited. rewrite dispose_position. tauto. Qed.

(** While the call has not exited and the barrier is unresolved, the
    timer is pending or a load state is awaited. *)
Lemma pending_while_waiting (events : list (Event R E)) :
  ~ exited (run events) -> waitBarrier (run events) = false ->
  timeout ∈ active (run events) \/ loadStatePending (run events) = true.
Proof.
  apply (run_invariant_of (fun s => ~ exited s -> waitBarrier s = false ->
                             timeout ∈ active s \/ loadStatePending s = true)).
  - intros _ _. left. apply elem_of_list_to_set, list_elem_of_In. simpl. auto.
  - intros s ev IH. destruct ev; cbn [step].
    + destruct (decide (requestListener ∈ active s)); exact IH.
    + destruct (decide (requestFinishedListener ∈ active s)); [|exact IH].
      unfold onRequestFinished. cbn [requests setRequests].
      destruct (decide (requests s ∖ {[request]} = ∅)); [intros _ Hw; discriminate | exact IH].
    + destruct (decide (frameNavigateListener ∈ active s)); [|exact IH].
      unfold onFrameNavigate. destruct hasParentFrame; [exact IH|].
      intros _ _. right. reflexivity.
    + destruct (decide (timeout ∈ active s)); [intros _ Hw; discriminate | exact IH].
    + destruct (loadStatePending s) eqn:Hload;
        [intros _ Hw; discriminate | rewrite ?Hload; exact IH].
    + destruct (position s) eqn:Hpos; try exact IH.
      unfold afterCallback.
      destruct (bool_decide (requests s = ∅) && negb (frameNavigated s));
        [intros _ Hw; discriminate|].
      destruct (waitBarrier s) eqn:Hb; cbn [setPosition waitBarrier active loadStatePending];
        [intros _ Hw; congruence|].
      intros _ _. apply IH; [unfold exited; rewrite Hpos; tauto | reflexivity].
    + destruct (position s) eqn:Hpos; try exact IH.
      unfold exited. cbn [setPosition position]. tauto.
    + destruct (position s) eqn:Hpos; try exact IH.
      unfold exited. cbn [setPosition position]. tauto.
    + destruct (position s) eqn:Hpos; try exact IH.
      unfold exited. cbn [setPosition position]. tauto.
Qed.

(** X20. A call that waits can always be released: while it has not
    exited and the barrier is unresolved, either the ceiling timer is
    still pending, and its firing resolves the barrier, or a navigation
    has taken over, and the load state resolves the barrier. *)
Theorem waiting_can_always_end (events : list (Event R E)) :
  let s := run events in
  ~ exited s -> waitBarrier s = false ->
  (timeout ∈ active s /\ waitBarrier (step s timeoutElapses) = true)
  \/ (loadStatePending s = true /\ waitBarrier (step s loadStateReached) = true).
Proof.
  intros s Hrun Hwait.
  destruct (pending_while_waiting events Hrun Hwait) as [Htimer|Hload].
  - left. split; [exact Htimer|]. fold s in Htimer. cbn [step].
    destruct (decide (timeout ∈ active s)); [reflexivity | contradiction].
  - right. split; [exact Hload|]. fold s in Hload. cbn [step]. rewrite Hload. reflexivity.
Qed.

(** After a top-level navigation nothing is registered any more. *)
Lemma navigated_is_disposed (events : list (Event R E)) :
  frameNavigated (run events) = true -> active (run events) = ∅.
Proof.
  apply (run_invariant_of (fun s => frameNavigated s = true -> active s = ∅)).
  - discriminate.
  - intros s ev IH. destruct ev; cbn [step].
    + destruct (decide (requestListener ∈ active s)); exact IH.
    + destruct (decide (requestFinishedListener ∈ active s)); [|exact IH].
      unfold onRequestFinished. cbn [requests setRequests].
      destruct (decide (requests s ∖ {[request]} = ∅)); exact IH.
    + destruct (decide (frameNavigateListener ∈ active s)); [|exact IH].
      unfold onFrameNavigate. destruct hasParentFrame; [exact IH|].
      intros _. cbn [active]. apply release_empty, dispose_active.
    + destruct (decide (timeout ∈ active s)); [|exact IH].
      intros _. cbn [onTimeout waitCallback active]. apply dispose_active.
    + destruct (loadStatePending s); exact IH.
    + destruct (position s) eqn:Hpos; try exact IH.
      unfold afterCallback.
      destruct (bool_decide (requests s = ∅) && negb (frameNavigated s));
        cbn [waitCallback waitBarrier]; try destruct (waitBarrier s); exact IH.
    + destruct (position s) eqn:Hpos; try exact IH.
      intros _. cbn [setPosition active]. apply dispose_active.
    + destruct (position s) eqn:Hpos; try exact IH.
      intros _. cbn [setPosition active]. apply dispose_active.
    + destruct (position s) eqn:Hpos; try exact IH.
      intros _. cbn [setPosition active]. apply dispose_active.
Qed.

(** X21. A top-level navigation takes over for good: once one was
    seen, the listeners are off and the timer is cleared, so that later
    requests, finished requests, navigations and the elapsing of the 10 s
    leave the call as it is; only the load state can still resolve the
    barrier. *)
Theorem navigation_supersedes_requests (events : list (Event R E)) :
  let s := run events in
  frameNavigated s = true ->
  active s = ∅
  /\ (forall request, step s (emitRequest request) = s)
  /\ (forall request, step s (emitRequestFinished request) = s)
  /\ (forall hasParentFrame, step s (emitFrameNavigated hasParentFrame) = s)
  /\ step s timeoutElapses = s.
Proof.
  intros s Hnav. pose proof (navigated_is_disposed events Hnav) as Hempty. fold s in Hempty.
  split; [exact Hempty|].
  repeat split; intros; cbn [step].
  - destruct (decide (requestListener ∈ active s)) as [Hin|]; [|reflexivity].
    exfalso. exact (not_active_when_empty _ _ Hempty Hin).
  - destruct (decide (requestFinishedListener ∈ active s)) as [Hin|]; [|reflexivity].
    exfalso. exact (not_active_when_empty _ _ Hempty Hin).
  - destruct (decide (frameNavigateListener ∈ active s)) as [Hin|]; [|reflexivity].
    exfalso. exact (not_active_when_empty _ _ Hempty Hin).
  - destruct (decide (timeout ∈ active s)) as [Hin|]; [|reflexivity].
    exfalso. exact (not_active_when_empty _ _ Hempty Hin).
Qed.
End BarrierLiveness.

Lemma waiting_can_always_end_witness :
  let s := Barrier.run (R := nat) (E := string)
             [Barrier.emitRequest 1%nat; Barrier.callbackResolves 7%nat] in
  (Barrier.timeout ∈ Barrier.active s
   /\ Barrier.waitBarrier (Barrier.step s Barrier.timeoutElapses) = true)
  \/ (Barrier.loadStatePending s = true
      /\ Barrier.waitBarrier (Barrier.step s Barrier.loadStateReached) = true).
Proof.
  intros s. apply (waiting_can_always_end _).
  - vm_compute. exact (fun H => H).
  - vm_compute. reflexivity.
Defined.

Lemma navigation_supersedes_requests_witness :
  let s := Barrier.run (R := nat) (E := string)
             [Barrier.emitRequest 1%nat; Barrier.emitFrameNavigated false] in
  Barrier.step s (Barrier.emitRequestFinished 1%nat) = s.
Proof.
  intros s.
  assert (Hnav : Barrier.frameNavigated s = true) by (vm_compute; reflexivity).
  exact (proj1 (proj2 (proj2
           (navigation_supersedes_requests
              [Barrier.emitRequest 1%nat; Barrier.emitFrameNavigated false] Hnav)))
           1%nat).
Defined.
